(** * chat-langchain: the chat window and the message bubble

    A shallow embedding of the two client components of the repository,
    [ChatMessageBubble.tsx] (source de-duplication, citation rendering,
    feedback) and the chat window (submission, the streamed response
    accumulator), with the properties the specification states about them.

    JavaScript strings are modelled as [string]; an index into a string
    counts characters of that type.  Library calls the components make
    ([JSON.parse], [marked.parse]) are section variables; values the
    platform draws ([Math.random], [uuidv4]) are arguments of the function
    that draws them. *)

From Stdlib Require Import Ascii String Sorted.
From stdpp Require Import gmap strings list fin_maps.

Open Scope string_scope.
Open Scope list_scope.
Open Scope nat_scope.

(** ** JavaScript string helpers *)

Module JS.

(** [s.slice(a, b)] for non-negative [a] and [b]: the characters from [a]
    up to, not including, [b]; empty when [b <= a]; clamped at the end. *)
Fixpoint drop_str (n : nat) (s : string) : string :=
  match n, s with
  | O, _ => s
  | S _, EmptyString => EmptyString
  | S n', String _ r => drop_str n' r
  end.

Fixpoint take_str (n : nat) (s : string) : string :=
  match n, s with
  | O, _ => EmptyString
  | S _, EmptyString => EmptyString
  | S n', String c r => String c (take_str n' r)
  end.

Definition slice (s : string) (a b : nat) : string :=
  take_str (b - a) (drop_str a s).

(** [s.slice(a)]. *)
Definition slice_from (s : string) (a : nat) : string := drop_str a s.

(** The white space and line terminators [String.prototype.trim] strips,
    among the characters [ascii] has: TAB, LF, VT, FF, CR, SP, NBSP. *)
Definition is_space (c : ascii) : bool :=
  match nat_of_ascii c with
  | 9 | 10 | 11 | 12 | 13 | 32 | 160 => true
  | _ => false
  end.

Fixpoint trimStart (s : string) : string :=
  match s with
  | EmptyString => EmptyString
  | String c r => if is_space c then trimStart r else s
  end.

(** [trimEnd] drops the trailing run of white space: a character is kept
    when it is not white space or something after it is kept. *)
Fixpoint trimEnd (s : string) : string :=
  match s with
  | EmptyString => EmptyString
  | String c r =>
      match trimEnd r with
      | EmptyString => if is_space c then EmptyString else String c EmptyString
      | r' => String c r'
      end
  end.

Definition trim (s : string) : string := trimEnd (trimStart s).

(** [s.split("\n")]: always at least one piece. *)
Fixpoint split_lines (s : string) : list string :=
  match s with
  | EmptyString => [EmptyString]
  | String c r =>
      if Ascii.eqb c "010"%char then EmptyString :: split_lines r
      else match split_lines r with
           | [] => [String c EmptyString]
           | l :: ls => String c l :: ls
           end
  end.

(** A string is truthy when it is not empty. *)
Definition truthy (s : string) : bool :=
  match s with EmptyString => false | _ => true end.

(** JSON values as far as [data.code === 200] tells them apart.  Numbers
    are the integers: a number that is not an integer differs from 200 as
    every non-number does. *)
Inductive value : Type :=
| undefined
| null
| boolean (b : bool)
| number (n : Z)
| text (s : string)
| object.

#[global] Instance value_eq_dec : EqDecision value.
Proof. solve_decision. Defined.

Definition strict_eq_number (v : value) (n : Z) : bool :=
  match v with
  | number m => bool_decide (m = n)
  | _ => false
  end.

End JS.

(** ** ChatMessageBubble.tsx *)

Module ChatMessageBubble.

(** Modelled from the spec: the type [Source] is declared in
    [SourceBubble.tsx], which is not among the sources; the specification
    describes it as a URL plus metadata, and the components read only
    [url]. *)
Record Source : Type := { url : string; metadata : string }.

Inductive Role : Type := system | user | assistant | function.

Record Message : Type := {
  id : string;
  content : string;
  role : Role;
  runId : option string;
  sources : option (list Source)
}.

Record Feedback : Type := {
  feedback_id : string;
  run_id : string;
  key : string;
  score : Z;
  fb_comment : option string
}.

#[global] Instance Source_eq_dec : EqDecision Source.
Proof. solve_decision. Defined.

#[global] Instance Role_eq_dec : EqDecision Role.
Proof. solve_decision. Defined.

(** *** filterSources *)

(** The three locals of [filterSources]: the array [filtered] and the two
    [Map]s. *)
Record FilterState : Type := {
  filtered : list Source;
  urlMap : gmap string nat;
  indexMap : gmap nat nat
}.

Definition filter_init : FilterState :=
  {| filtered := []; urlMap := ∅; indexMap := ∅ |}.

(** The body of the [forEach] callback at [(source, i)]. *)
Definition filter_step (st : FilterState) (i : nat) (source : Source)
  : FilterState :=
  match urlMap st !! url source with
  | None =>
      {| filtered := filtered st ++ [source];
         urlMap := <[url source := i]> (urlMap st);
         indexMap := <[i := length (filtered st)]> (indexMap st) |}
  | Some index =>
      {| filtered := filtered st;
         urlMap := urlMap st;
         indexMap := <[i := index]> (indexMap st) |}
  end.

(** [sources.forEach] from index [i] on. *)
Fixpoint filter_loop (st : FilterState) (i : nat) (l : list Source)
  : FilterState :=
  match l with
  | [] => st
  | source :: l' => filter_loop (filter_step st i source) (S i) l'
  end.

Definition filterSources (l : list Source) : FilterState :=
  filter_loop filter_init 0 l.

(** *** The citation pattern [/\[\^?(\d+)\^?\]/g] *)

Definition is_digit (c : ascii) : bool :=
  (48 <=? nat_of_ascii c) && (nat_of_ascii c <=? 57).

(** The longest run of digits at the head of [s], and what follows. *)
Fixpoint span_digits (s : string) : string * string :=
  match s with
  | String c r =>
      if is_digit c then
        let '(ds, rest) := span_digits r in (String c ds, rest)
      else (EmptyString, s)
  | EmptyString => (EmptyString, EmptyString)
  end.

(** [\^?] at the head of [s]: what it matched, and what follows. *)
Definition opt_caret (s : string) : string * string :=
  match s with
  | String "^"%char r => ("^", r)
  | _ => ("", s)
  end.

(** A match of the pattern anchored at the head of [s]: the matched text
    [match[0]] and the group [match[1]].  Every quantifier is greedy and
    none can give a character back: what follows a [\^?] or the [\d+] never
    matches the character that quantifier would release. *)
Definition match_here (s : string) : option (string * string) :=
  match s with
  | String "["%char r =>
      let '(c1, r1) := opt_caret r in
      let '(ds, r2) := span_digits r1 in
      match ds with
      | EmptyString => None
      | _ =>
          let '(c2, r3) := opt_caret r2 in
          match r3 with
          | String "]"%char _ => Some ("[" +:+ c1 +:+ ds +:+ c2 +:+ "]", ds)
          | _ => None
          end
      end
  | _ => None
  end.

Record RegExpMatch : Type := {
  m_index : nat;      (* match.index *)
  m_text : string;    (* match[0] *)
  m_group : string    (* match[1] *)
}.

(** [content.matchAll(...)]: the successive leftmost matches.  [pos] is the
    index of the head of [s]; [skip] counts the characters of the previous
    match still to be passed, since the search resumes at its end. *)
Fixpoint matchAll_from (s : string) (pos skip : nat) : list RegExpMatch :=
  match s with
  | EmptyString => []
  | String _ r =>
      match skip with
      | S k => matchAll_from r (S pos) k
      | O =>
          match match_here s with
          | Some (t, g) =>
              {| m_index := pos; m_text := t; m_group := g |}
                :: matchAll_from r (S pos) (String.length t - 1)
          | None => matchAll_from r (S pos) 0
          end
      end
  end.

Definition matchAll (content : string) : list RegExpMatch :=
  matchAll_from content 0 0.

(** [parseInt(ds, 10)] on a run of decimal digits.  The value is exact
    here; JavaScript rounds it to a double from 2^53 on. *)
Definition digit_value (c : ascii) : nat := nat_of_ascii c - 48.

Fixpoint parseInt_from (acc : nat) (ds : string) : nat :=
  match ds with
  | EmptyString => acc
  | String c r => parseInt_from (10 * acc + digit_value c) r
  end.

Definition parseInt (ds : string) : nat := parseInt_from 0 ds.

(** *** createAnswerElements *)

(** The two kinds of element pushed, with their [key] (the value of
    [prevIndex] when pushed).  [filteredSources[resolvedNum]] and
    [highlighedSourceLinkStates[resolvedNum]] are [undefined] out of
    range. *)
Inductive Element : Type :=
| span (key : nat) (html : string)
| InlineCitation (key : nat) (source : option Source) (sourceNumber : nat)
    (highlighted : option bool).

(** The locals [elements] and [prevIndex]. *)
Record Render : Type := { elements : list Element; prevIndex : nat }.

Definition resolve (sourceIndexMap : gmap nat nat) (sourceNum : nat) : nat :=
  default 10 (sourceIndexMap !! sourceNum).

(** The body of [matches.forEach]. *)
Definition render_match (content : string) (filteredSources : list Source)
    (sourceIndexMap : gmap nat nat) (highlighted : list bool)
    (st : Render) (m : RegExpMatch) : Render :=
  let sourceNum := parseInt (m_group m) in
  let resolvedNum := resolve sourceIndexMap sourceNum in
  if bool_decide (resolvedNum < length filteredSources) then
    {| elements :=
         elements st ++
           [ span (prevIndex st) (JS.slice content (prevIndex st) (m_index m));
             InlineCitation (prevIndex st) (filteredSources !! resolvedNum)
               resolvedNum (highlighted !! resolvedNum) ];
       prevIndex := m_index m + String.length (m_text m) |}
  else st.

Definition createAnswerElements (content : string)
    (filteredSources : list Source) (sourceIndexMap : gmap nat nat)
    (highlighted : list bool) : list Element :=
  let st :=
    foldl (render_match content filteredSources sourceIndexMap highlighted)
      {| elements := []; prevIndex := 0 |} (matchAll content) in
  elements st ++ [span (prevIndex st) (JS.slice_from content (prevIndex st))].

(** The elements the bubble shows for a message: [createAnswerElements] on
    the result of [filterSources] for an assistant message, nothing
    otherwise.  The highlight states start all [false]. *)
Definition answerElements (m : Message) : list Element :=
  let fs := filterSources (default [] (sources m)) in
  match role m with
  | assistant =>
      createAnswerElements (content m) (filtered fs) (indexMap fs)
        (map (fun _ => false) (filtered fs))
  | _ => []
  end.

(** *** Feedback *)

Record Props : Type := {
  message : Message;
  isMostRecent : bool;
  messageCompleted : bool;
  apiBaseUrl : string
}.

(** The four [useState] cells of the component. *)
Record State : Type := {
  isLoading : bool;
  feedback : option Feedback;
  comment : string;
  feedbackColor : string
}.

Definition mount : State :=
  {| isLoading := false; feedback := None; comment := ""; feedbackColor := "" |}.

Definition setIsLoading (v : bool) (st : State) : State :=
  {| isLoading := v; feedback := feedback st; comment := comment st;
     feedbackColor := feedbackColor st |}.

Definition setFeedback (v : option Feedback) (st : State) : State :=
  {| isLoading := isLoading st; feedback := v; comment := comment st;
     feedbackColor := feedbackColor st |}.

Definition setComment (v : string) (st : State) : State :=
  {| isLoading := isLoading st; feedback := feedback st; comment := v;
     feedbackColor := feedbackColor st |}.

Definition setFeedbackColor (v : string) (st : State) : State :=
  {| isLoading := isLoading st; feedback := feedback st; comment := comment st;
     feedbackColor := v |}.

Inductive Method : Type := POST | PATCH.

(** What the component does to the outside.  The body of a feedback request
    has the fields of [Feedback], [comment] included. *)
Inductive Effect : Type :=
| fetch (target : string) (method : Method) (body : Feedback)
| toast_error (msg : string)
| console_error
| animateButton (buttonId : string).

Definition is_fetch (e : Effect) : bool :=
  match e with fetch _ _ _ => true | _ => false end.

(** [sendFeedback] up to its [await fetch]: the new state, the effects, and
    the request left in flight (its body, whose fields are the values the
    continuation has captured).  [uuid] is what [uuidv4()] returns if
    called. *)
Definition sendFeedback (p : Props) (st : State) (score : Z) (key uuid : string)
  : State * list Effect * option Feedback :=
  match runId (message p) with
  | None => (st, [], None)
  | Some run_id =>
      if isLoading st then (st, [], None)
      else
        let feedback_id :=
          match feedback st with Some f => feedback_id f | None => uuid end in
        let method :=
          match feedback st with
          | Some f => if JS.truthy (ChatMessageBubble.feedback_id f)
                      then PATCH else POST
          | None => POST
          end in
        let body :=
          {| feedback_id := feedback_id; run_id := run_id; key := key;
             score := score; fb_comment := Some (comment st) |} in
        (setIsLoading true st,
         [fetch (apiBaseUrl p +:+ "/feedback") method body],
         Some body)
  end.

(** How the awaited request ends: [fetch] or [response.json()] rejects (or
    reading [data.code] throws) with an error carrying [msg], or the body
    decodes to an object whose [code] field is [code]. *)
Inductive Outcome : Type :=
| rejected (msg : string)
| resolved (code : JS.value).

(** [sendFeedback] from the [await] on, for the request with body [req]. *)
Definition sendFeedback_resume (st : State) (req : Feedback) (o : Outcome)
  : State * list Effect :=
  match o with
  | resolved code =>
      if JS.strict_eq_number code 200 then
        let st1 :=
          setFeedback
            (Some {| feedback_id := feedback_id req; run_id := run_id req;
                     key := key req; score := score req;
                     fb_comment := None |}) st in
        let st2 :=
          if JS.truthy (default "" (fb_comment req))
          then setComment "" st1 else st1 in
        (setIsLoading false st2,
         [animateButton
            (if bool_decide (score req = 1%Z) then "upButton" else "downButton")])
      else (setIsLoading false st, [])
  | rejected msg =>
      (setIsLoading false st, [console_error; toast_error msg])
  end.

Inductive Button : Type := upButton | downButton.

Definition buttonId (b : Button) : string :=
  match b with upButton => "upButton" | downButton => "downButton" end.

Definition buttonScore (b : Button) : Z :=
  match b with upButton => 1%Z | downButton => 0%Z end.

Definition buttonColor (b : Button) : string :=
  match b with
  | upButton => "border-4 border-green-300"
  | downButton => "border-4 border-red-300"
  end.

Definition already : string := "You have already provided your feedback.".

(** The [onClick] handler of a feedback button. *)
Definition onClick (p : Props) (st : State) (b : Button) (uuid : string)
  : State * list Effect * option Feedback :=
  match feedback st, runId (message p) with
  | None, Some (String _ _) =>
      let '(st1, effs, req) :=
        sendFeedback p st (buttonScore b) "user_score" uuid in
      (setFeedbackColor (buttonColor b) st1,
       effs ++ [animateButton (buttonId b)], req)
  | _, _ => (st, [toast_error already], None)
  end.

(** The two buttons are rendered under this condition. *)
Definition buttons_rendered (p : Props) : bool :=
  negb (bool_decide (role (message p) = user))
  && isMostRecent p && messageCompleted p.

(** The component over time: its state, the feedback requests awaiting
    their response, and the effects so far. *)
Record Machine : Type := {
  state : State;
  inflight : list Feedback;
  log : list Effect
}.

Definition mounted : Machine :=
  {| state := mount; inflight := []; log := [] |}.

(** What can happen to a mounted bubble: a click on a rendered button, or
    the settling of the [k]-th request in flight.  An event carries the
    props of the render it happens in. *)
Inductive Event : Type :=
| click (b : Button) (uuid : string)
| settle (k : nat) (o : Outcome).

Definition step (m : Machine) (pe : Props * Event) : Machine :=
  match pe.2 with
  | click b uuid =>
      if buttons_rendered pe.1 then
        let '(st, effs, req) := onClick pe.1 (state m) b uuid in
        {| state := st;
           inflight := inflight m ++ option_list req;
           log := log m ++ effs |}
      else m
  | settle k o =>
      match inflight m !! k with
      | Some req =>
          let '(st, effs) := sendFeedback_resume (state m) req o in
          {| state := st; inflight := delete k (inflight m);
             log := log m ++ effs |}
      | None => m
      end
  end.

Definition run (m : Machine) (evs : list (Props * Event)) : Machine :=
  foldl step m evs.
End ChatMessageBubble.

(** ** The chat window *)

Module ChatWindow.

Abbreviation Source := ChatMessageBubble.Source.
Abbreviation Message := ChatMessageBubble.Message.

(** One exchange of [chatHistory]. *)
Record Exchange : Type := { human : string; ai : string }.

(** The [useState] cells of the window, whether the message container
    carries the class [grow], and whether React has unmounted the window:
    an updater that throws while React renders makes it unmount the tree.
    From then on nothing is shown and the user has nothing left to act on;
    the cells of such a state are what the calls made so far have written,
    not something rendered. *)
Record State : Type := {
  messages : list Message;
  input : string;
  isLoading : bool;
  chatHistory : list Exchange;
  grow : bool;
  unmounted : bool
}.

Definition initial : State :=
  {| messages := []; input := ""; isLoading := false; chatHistory := [];
     grow := false;
     unmounted := false |}.

(** The JSON body of a chat request. *)
Record ChatRequest : Type := {
  message : string;
  history : list Exchange;
  conversation_id : string
}.

Definition userMessage (rnd messageValue : string) : Message :=
  {| ChatMessageBubble.id := rnd;
     ChatMessageBubble.content := messageValue;
     ChatMessageBubble.role := ChatMessageBubble.user;
     ChatMessageBubble.runId := None;
     ChatMessageBubble.sources := None |}.

(** [sendMessage] up to its [await fetch]: the new state and the request
    issued, if one is.  [rnd] is [Math.random().toString()] and
    [conversationId] the identifier of the current render. *)
Definition sendMessage (conversationId : string) (st : State)
    (message : option string) (rnd : string) : State * option ChatRequest :=
  let st0 :=
    {| messages := messages st; input := input st; isLoading := isLoading st;
       chatHistory := chatHistory st; grow := true;
       unmounted := unmounted st |} in
  if isLoading st then (st0, None)
  else
    let messageValue := default (input st) message in
    if bool_decide (messageValue = "") then (st0, None)
    else
      ({| messages := messages st ++ [userMessage rnd messageValue];
          input := "";
          isLoading := true;
          chatHistory := chatHistory st;
          grow := true;
          unmounted := unmounted st |},
       Some {| message := messageValue; history := chatHistory st;
               conversation_id := conversationId |}).

(** [prevMessages.slice(0, -1)]. *)
Definition slice_0_m1 {A} (l : list A) : list A := take (length l - 1) l.

(** The [catch] block around the [fetch], before it rethrows. *)
Definition sendMessage_catch (st : State) (messageValue : string) : State :=
  {| messages := slice_0_m1 (messages st);
     input := messageValue;
     isLoading := false;
     chatHistory := chatHistory st;
     grow := grow st;
     unmounted := unmounted st |}.

(** The [onChange] of the input field. *)
Definition setInput (text : string) (st : State) : State :=
  {| messages := messages st; input := text; isLoading := isLoading st;
     chatHistory := chatHistory st; grow := grow st;
     unmounted := unmounted st |}.

(** The variables the reader callback closes over. *)
Record Stream : Type := {
  messageValue : string;
  accumulatedMessage : string;
  runId : option string;
  sources : option (list Source);
  messageIndex : option nat
}.

Definition open_stream (messageValue : string) : Stream :=
  {| messageValue := messageValue; accumulatedMessage := ""; runId := None;
     sources := None; messageIndex := None |}.

(** A decoded line of the response: an object, of which the callback reads
    the three properties below ([None]: the object has no such property). *)
Module Parsed.
Record t : Type := {
  tok : option string;
  run_id : option string;
  sources : option (list Source)
}.
End Parsed.

(** The callback of [.map] on one decoded object. *)
Definition accumulate (s : Stream) (parsed : Parsed.t) : Stream :=
  match Parsed.tok parsed with
  | Some t =>
      {| messageValue := messageValue s;
         accumulatedMessage := accumulatedMessage s +:+ t;
         runId := runId s; sources := sources s;
         messageIndex := messageIndex s |}
  | None =>
      match Parsed.run_id parsed with
      | Some r =>
          {| messageValue := messageValue s;
             accumulatedMessage := accumulatedMessage s;
             runId := Some r; sources := sources s;
             messageIndex := messageIndex s |}
      | None =>
          match Parsed.sources parsed with
          | Some l =>
              {| messageValue := messageValue s;
                 accumulatedMessage := accumulatedMessage s;
                 runId := runId s; sources := Some l;
                 messageIndex := messageIndex s |}
          | None => s
          end
      end
  end.

(** What [reader.read()] resolves to, the chunk already decoded to text. *)
Inductive ReadResult : Type :=
| done
| value (chunk : string).

Definition assistantMessage (rnd content : string) (s : Stream) : Message :=
  {| ChatMessageBubble.id := rnd;
     ChatMessageBubble.content := content;
     ChatMessageBubble.role := ChatMessageBubble.assistant;
     ChatMessageBubble.runId := runId s;
     ChatMessageBubble.sources := sources s |}.

(** The three assignments to [newMessages[messageIndex]]. *)
Definition overwrite (content : string) (s : Stream) (m : Message) : Message :=
  {| ChatMessageBubble.id := ChatMessageBubble.id m;
     ChatMessageBubble.content := content;
     ChatMessageBubble.role := ChatMessageBubble.role m;
     ChatMessageBubble.runId := runId s;
     ChatMessageBubble.sources := sources s |}.

(** The updater passed to [setMessages].  [None]: the slot is missing and
    the assignment to a property of [undefined] throws, inside the updater,
    which React runs while it renders. *)
Definition upsert (s : Stream) (content rnd : string)
    (prevMessages : list Message) : option (Stream * list Message) :=
  match messageIndex s with
  | None =>
      Some ({| messageValue := messageValue s;
               accumulatedMessage := accumulatedMessage s;
               runId := runId s; sources := sources s;
               messageIndex := Some (length prevMessages) |},
            prevMessages ++ [assistantMessage rnd content s])
  | Some i =>
      match prevMessages !! i with
      | Some m => Some (s, <[i := overwrite content s m]> prevMessages)
      | None => None
      end
  end.

Section Libraries.

(** [JSON.parse] on a line, [None] when the callback throws on it: the line
    is not JSON, or is JSON but no object (then [in] throws). *)
Variable JSON_parse : string -> option Parsed.t.

(** [marked.parse] with the renderer the window installs. *)
Variable marked_parse : string -> string.

(** The [.map] over the lines of a chunk; [None] when a line throws. *)
Fixpoint accumulate_lines (s : Stream) (lines : list string) : option Stream :=
  match lines with
  | [] => Some s
  | l :: ls =>
      match JSON_parse l with
      | Some parsed => accumulate_lines (accumulate s parsed) ls
      | None => None
      end
  end.

(** [processText]: the closure variables and the window after the call, or
    [None] when it throws, which ends the chain of reads in the [catch].
    It throws when a line does not decode.  When the updater it passes to
    [setMessages] throws, it is React that gets the error, while it
    renders: [processText] has gone on to [setIsLoading(false)] and to the
    next read, the messages are not replaced, and React unmounts the
    window. *)
Definition processText (s : Stream) (st : State) (res : ReadResult)
    (rnd : string) : option (Stream * State) :=
  match res with
  | done =>
      Some (s,
            {| messages := messages st; input := input st;
               isLoading := isLoading st;
               chatHistory :=
                 chatHistory st ++
                   [{| human := messageValue s; ai := accumulatedMessage s |}];
               grow := grow st;
               unmounted := unmounted st |})
  | value chunk =>
      match accumulate_lines s (JS.split_lines (JS.trim chunk)) with
      | None => None
      | Some s1 =>
          let parsedResult := marked_parse (accumulatedMessage s1) in
          match upsert s1 (JS.trim parsedResult) rnd (messages st) with
          | None =>
              Some (s1,
                    {| messages := messages st; input := input st;
                       isLoading := false;
                       chatHistory := chatHistory st; grow := grow st;
                       unmounted := true |})
          | Some (s2, newMessages) =>
              Some (s2,
                    {| messages := newMessages; input := input st;
                       isLoading := false; chatHistory := chatHistory st;
                       grow := grow st;
                       unmounted := unmounted st |})
          end
      end
  end.

(** A call of [sendMessage] that got past its guards. *)
Inductive Call : Type :=
| fetching (messageValue : string)   (* awaiting [fetch] *)
| streaming (s : Stream)             (* reading the response body *)
| finished                           (* the reader reported [done] *)
| failed.                            (* it threw *)

Definition in_progress (c : Call) : bool :=
  match c with streaming _ => true | _ => false end.

(** The window over time: its state, every call made so far, and every
    chat request issued so far. *)
Record System : Type := {
  window : State;
  calls : list Call;
  requests : list ChatRequest
}.

Definition start : System :=
  {| window := initial; calls := []; requests := [] |}.

(** What can happen to the window: a call of [sendMessage] (from the send
    button, the Enter key or the empty state), typing in the input field,
    and, for the call [k], the end of its [fetch] and what its reader
    delivers. *)
Inductive Event : Type :=
| submit (message : option string) (rnd conversationId : string)
| change (text : string)
| fetch_rejects (k : nat)
| fetch_resolves (k : nat) (hasBody : bool)
| read (k : nat) (res : ReadResult) (rnd : string).

(** One event.  An event for a call that is not in the state the event
    needs changes nothing.  [unmounted] is only ever set, by a chunk whose
    updater throws: no event clears it, and no branch looks at it. *)
Definition step (sys : System) (e : Event) : System :=
  match e with
  | submit message rnd conversationId =>
      match sendMessage conversationId (window sys) message rnd with
      | (st, Some req) =>
          {| window := st;
             calls := calls sys ++ [fetching (ChatWindow.message req)];
             requests := requests sys ++ [req] |}
      | (st, None) =>
          {| window := st; calls := calls sys; requests := requests sys |}
      end
  | change text =>
      {| window := setInput text (window sys); calls := calls sys;
         requests := requests sys |}
  | fetch_rejects k =>
      match calls sys !! k with
      | Some (fetching mv) =>
          {| window := sendMessage_catch (window sys) mv;
             calls := <[k := failed]> (calls sys);
             requests := requests sys |}
      | _ => sys
      end
  | fetch_resolves k hasBody =>
      match calls sys !! k with
      | Some (fetching mv) =>
          {| window := window sys;
             calls :=
               <[k := if hasBody then streaming (open_stream mv) else failed]>
                 (calls sys);
             requests := requests sys |}
      | _ => sys
      end
  | read k res rnd =>
      match calls sys !! k with
      | Some (streaming s) =>
          match processText s (window sys) res rnd with
          | Some (s', st) =>
              {| window := st;
                 calls :=
                   <[k := match res with
                          | done => finished
                          | value _ => streaming s'
                          end]> (calls sys);
                 requests := requests sys |}
          | None =>
              {| window := window sys;
                 calls := <[k := failed]> (calls sys);
                 requests := requests sys |}
          end
      | _ => sys
      end
  end.

Definition run (sys : System) (evs : list Event) : System :=
  foldl step sys evs.

(** One response read to its end on its own: the chunks in order, then
    [done].  [rnds] supplies [Math.random().toString()] per chunk. *)
Fixpoint read_chunks (s : Stream) (st : State) (chunks : list (string * string))
  : option (Stream * State) :=
  match chunks with
  | [] => Some (s, st)
  | (chunk, rnd) :: rest =>
      match processText s st (value chunk) rnd with
      | Some (s', st') => read_chunks s' st' rest
      | None => None
      end
  end.

End Libraries.

End ChatWindow.

(** ** A reader for the lines of the protocol

    The three shapes a line of the response takes, [{tok}], [{run_id}] and
    [{sources}], read without escapes; it stands for [JSON.parse] where a
    statement is evaluated on concrete lines. *)

Module Demo.

Definition quote : string := String (ascii_of_nat 34) EmptyString.

Definition newline : string := String (ascii_of_nat 10) EmptyString.

Fixpoint strip_prefix (p s : string) : option string :=
  match p, s with
  | EmptyString, _ => Some s
  | String a p', String b s' =>
      if Ascii.eqb a b then strip_prefix p' s' else None
  | String _ _, EmptyString => None
  end.

(** The text up to the first quote, and what follows that quote. *)
Fixpoint until_quote (s : string) : option (string * string) :=
  match s with
  | EmptyString => None
  | String c r =>
      if Ascii.eqb c (ascii_of_nat 34) then Some (EmptyString, r)
      else match until_quote r with
           | Some (v, rest) => Some (String c v, rest)
           | None => None
           end
  end.

(** The line with the one string property [name], and its value. *)
Definition line_of (name v : string) : string :=
  "{" +:+ quote +:+ name +:+ quote +:+ ":" +:+ quote +:+ v +:+ quote +:+ "}".

Definition string_property (name line : string) : option string :=
  match strip_prefix ("{" +:+ quote +:+ name +:+ quote +:+ ":" +:+ quote) line with
  | Some rest =>
      match until_quote rest with
      | Some (v, "}") => Some v
      | _ => None
      end
  | None => None
  end.

Definition no_sources : string :=
  "{" +:+ quote +:+ "sources" +:+ quote +:+ ":[]}".

Definition JSON_parse (line : string) : option ChatWindow.Parsed.t :=
  match string_property "tok" line with
  | Some t =>
      Some {| ChatWindow.Parsed.tok := Some t;
              ChatWindow.Parsed.run_id := None;
              ChatWindow.Parsed.sources := None |}
  | None =>
      match string_property "run_id" line with
      | Some r =>
          Some {| ChatWindow.Parsed.tok := None;
                  ChatWindow.Parsed.run_id := Some r;
                  ChatWindow.Parsed.sources := None |}
      | None =>
          if bool_decide (line = no_sources) then
            Some {| ChatWindow.Parsed.tok := None;
                    ChatWindow.Parsed.run_id := None;
                    ChatWindow.Parsed.sources := Some [] |}
          else None
      end
  end.

(** [marked.parse] on text without markup: one paragraph, which the
    window's renderer ends with a line feed. *)
Definition marked_parse (s : string) : string := s +:+ newline.

Definition src (u : string) : ChatMessageBubble.Source :=
  {| ChatMessageBubble.url := u; ChatMessageBubble.metadata := "" |}.

End Demo.

(** * Notions the properties are stated with *)

(** ** Notions for: Source de-duplication and citations *)

Module CitationsDefs.
Import ChatMessageBubble.

(** The index of the first source of [l] with URL [u]. *)
Fixpoint first_index (u : string) (l : list Source) : option nat :=
  match l with
  | [] => None
  | s :: r => if bool_decide (url s = u) then Some 0 else S <$> first_index u r
  end.

(** What the loop of [filterSources] has established once it has passed
    the sources [pre]. *)
Record filter_inv (pre : list Source) (st : FilterState) : Prop := {
  inv_urlMap : ∀ u, urlMap st !! u = first_index u pre;
  inv_first : ∀ k s, pre !! k = Some s → first_index (url s) pre = Some k →
      ∃ p, indexMap st !! k = Some p ∧ filtered st !! p = Some s;
  inv_dup : ∀ k s j, pre !! k = Some s → first_index (url s) pre = Some j →
      j ≠ k → indexMap st !! k = Some j;
  inv_dom : ∀ k, length pre ≤ k → indexMap st !! k = None;
  inv_nodup : NoDup (url <$> filtered st);
  inv_sub : ∀ s, s ∈ filtered st → s ∈ pre
}.

Definition five : list Source :=
  Demo.src <$> ["a"; "a"; "b"; "c"; "b"].

Definition eleven : list Source :=
  Demo.src <$> ["u0"; "u1"; "u2"; "u3"; "u4"; "u5"; "u6"; "u7"; "u8"; "u9";
                "u10"].

End CitationsDefs.

(** ** Notions for: Feedback *)

Module FeedbackDefs.
Import ChatMessageBubble.

(** At most one feedback request is in flight, and while one is, the bubble
    is loading and has stored no feedback. *)
Definition quiet (m : Machine) : Prop :=
  match inflight m with
  | [] => True
  | [_] => isLoading (state m) = true ∧ feedback (state m) = None
  | _ => False
  end.

(** The notice a click gets once feedback is stored; nothing for the
    settling of a request. *)
Definition rejection (pe : Props * Event) : list Effect :=
  match pe.2 with
  | click _ _ => if buttons_rendered pe.1 then [toast_error already] else []
  | settle _ _ => []
  end.

Definition shown : Props :=
  {| message :=
       {| id := "m1"; content := "hello"; role := assistant;
          runId := Some "run-1"; sources := None |};
     isMostRecent := true; messageCompleted := true;
     apiBaseUrl := "http://localhost:8080" |}.

Definition thumbs_up : list (Props * Event) :=
  [(shown, click upButton "id-1");
   (shown, settle 0 (resolved (JS.number 200)))].

Definition more_clicks : list (Props * Event) :=
  [(shown, click downButton "id-2"); (shown, click upButton "id-3")].

Definition kept : Feedback :=
  {| feedback_id := "id-1"; run_id := "run-1"; key := "user_score";
     score := 1; fb_comment := None |}.

End FeedbackDefs.

(** ** Notions for: Submission *)

Module SubmissionDefs.
Import ChatWindow.

Definition is_submit (e : Event) : bool :=
  match e with submit _ _ _ => true | _ => false end.

Definition idle : System :=
  {| window :=
       {| messages := [userMessage "0.1" "hi"]; input := "what is LCEL?";
          isLoading := false;
          chatHistory := [{| human := "hi"; ai := "hello" |}]; grow := true;
          unmounted := false |};
     calls := [finished];
     requests := [{| message := "hi"; history := []; conversation_id := "c0" |}] |}.

Definition blank : System :=
  {| window :=
       {| messages := [userMessage "0.1" "hi"]; input := ""; isLoading := false;
          chatHistory := []; grow := false;
          unmounted := false |};
     calls := [finished];
     requests := [{| message := "hi"; history := []; conversation_id := "c0" |}] |}.

(** The first chunk of the first response. *)
Definition first_chunk : list Event :=
  [submit (Some "a") "0.1" "c";
   fetch_resolves 0 true;
   read 0 (value (Demo.line_of "tok" "x")) "0.2"].

Definition second_call : list Event :=
  [submit (Some "b") "0.3" "c"; fetch_resolves 1 true].

(** A second submission after the first chunk, and the next chunk of the
    first response, read while the second request is out. *)
Definition second_pending : list Event :=
  [submit (Some "b") "0.3" "c";
   read 0 (value (Demo.line_of "tok" "y")) "0.4"].

(** A third submission, and then the failure of the second request. *)
Definition third_then_failure : list Event :=
  [submit (Some "c") "0.5" "c"; fetch_rejects 1].

(** The role and the content of each message of the list, in order. *)
Definition texts (sys : System) : list (ChatMessageBubble.Role * string) :=
  (λ m, (ChatMessageBubble.role m, ChatMessageBubble.content m))
    <$> messages (window sys).

End SubmissionDefs.

(** ** Notions for: The streamed response accumulator *)

Module AccumulatorDefs.
Import ChatWindow.

(** The lines of a decoded chunk. *)
Definition lines_of (chunk : string) : list string :=
  JS.split_lines (JS.trim chunk).

(** The concatenation, in order, of the [tok] fields of the token
    fragments among [objs]. *)
Definition tok_concat (objs : list Parsed.t) : string :=
  foldr String.append "" (omap Parsed.tok objs).

(** The [run_id] of the last object that has one. *)
Definition last_run_id (objs : list Parsed.t) : option string :=
  last (omap Parsed.run_id objs).

(** The [sources] of the last object that has them. *)
Definition last_sources (objs : list Parsed.t) : option (list Source) :=
  last (omap Parsed.sources objs).

(** An object of the protocol has exactly one of the three properties. *)
Definition one_shape (o : Parsed.t) : Prop :=
  match Parsed.tok o, Parsed.run_id o, Parsed.sources o with
  | Some _, None, None | None, Some _, None | None, None, Some _ => True
  | _, _, _ => False
  end.

Definition with_index (s : Stream) (i : nat) : Stream :=
  {| messageValue := messageValue s;
     accumulatedMessage := accumulatedMessage s;
     runId := runId s; sources := sources s; messageIndex := Some i |}.

Definition with_messages (st : State) (l : list Message) : State :=
  {| messages := l; input := input st; isLoading := false;
     chatHistory := chatHistory st; grow := grow st;
     unmounted := unmounted st |}.

(** The content the window shows for the buffer of [s]. *)
Definition rendered (marked_parse : string → string) (s : Stream) : string :=
  JS.trim (marked_parse (accumulatedMessage s)).

(** The objects the lines of the chunks decode to, when every line does. *)
Definition parse_chunks (JSON_parse : string → option Parsed.t)
    (chunks : list string) : option (list Parsed.t) :=
  mapM JSON_parse (chunks ≫= lines_of).

(** The reads of the chunks of call [k], as events. *)
Definition reads (k : nat) (chunks : list (string * string)) : list Event :=
  (λ cr, read k (value cr.1) cr.2) <$> chunks.

(** A response in two chunks: a token and the run id, then a token and
    the sources. *)
Definition two_chunks : list (string * string) :=
  [(Demo.line_of "tok" "Hel" +:+ Demo.newline +:+ Demo.line_of "run_id" "R1"
      +:+ Demo.newline, "0.5");
   (Demo.line_of "tok" "lo" +:+ Demo.newline +:+ Demo.no_sources, "0.6")].

Definition two_chunks_objs : list Parsed.t :=
  [{| Parsed.tok := Some "Hel"; Parsed.run_id := None; Parsed.sources := None |};
   {| Parsed.tok := None; Parsed.run_id := Some "R1"; Parsed.sources := None |};
   {| Parsed.tok := Some "lo"; Parsed.run_id := None; Parsed.sources := None |};
   {| Parsed.tok := None; Parsed.run_id := None; Parsed.sources := Some [] |}].

End AccumulatorDefs.

(** ** The chat window: viewTrace *)

Module Trace.

(** What the body of the response decodes to: a string, an object (with
    its [code] and [result], [undefined] when absent), [null], or a
    number, boolean or array. *)
Inductive TraceData : Type :=
| trace_text (s : string)
| trace_object (code result : JS.value)
| trace_null
| trace_other.

(** How the awaited [fetch] and [response.json()] end. *)
Inductive Response : Type :=
| rejects (msg : string)
| resolves (data : TraceData).

Inductive Effect : Type :=
| fetch_trace (target : string)
| toast_error (msg : string)
| console_error
| window_open (url target : string).

Definition is_quote (c : ascii) : bool :=
  Ascii.eqb c "'"%char || Ascii.eqb c (ascii_of_nat 34).

(** The [data.replace] of [viewTrace], whose pattern is one or more single
    or double quotes, global, and whose replacement is the empty string:
    every maximal run of quotes is removed, that is, each quote. *)
Fixpoint strip_quotes (s : string) : string :=
  match s with
  | EmptyString => EmptyString
  | String c r =>
      if is_quote c then strip_quotes r else String c (strip_quotes r)
  end.

Definition strict_eq_text (v : JS.value) (s : string) : bool :=
  match v with
  | JS.text t => bool_decide (t = s)
  | _ => false
  end.

Definition unable : string := "Unable to view trace".

Definition no_session : string := "No chat session found".

Section Engine.

(** The message of the [TypeError] the engine raises on [data.code] of
    [null] or on [data.replace] when that is no function. *)
Variable type_error_message : TraceData -> string.

(** [viewTrace], given how its request ends: the effects in order. *)
Definition viewTrace (apiBaseUrl : string) (r : Response) : list Effect :=
  fetch_trace (apiBaseUrl +:+ "/get_trace") ::
  match r with
  | rejects msg => [console_error; toast_error msg]
  | resolves data =>
      match data with
      | trace_text s => [window_open (strip_quotes s) "_blank"]
      | trace_object code result =>
          if JS.strict_eq_number code 400 && strict_eq_text result no_session
          then [toast_error unable; console_error; toast_error unable]
          else [console_error; toast_error (type_error_message data)]
      | trace_null | trace_other =>
          [console_error; toast_error (type_error_message data)]
      end
  end.

End Engine.

End Trace.

(** ** What the two components render *)

Module View.
Import ChatMessageBubble.

(** The props the window passes to its bubbles, in the order it renders
    them: the messages reversed, the first of them the most recent. *)
Definition bubble_props (apiBaseUrl : string) (st : ChatWindow.State)
  : list Props :=
  imap (λ index m,
          {| message := m;
             isMostRecent := bool_decide (index = 0);
             messageCompleted := negb (ChatWindow.isLoading st);
             apiBaseUrl := apiBaseUrl |})
       (reverse (ChatWindow.messages st)).

(** The window shows the bubbles when there are messages and the empty
    state otherwise; the send button shows a spinner while loading. *)
Record WindowView : Type := {
  heading : bool;
  bubbles : list Props;
  emptyState : bool;
  spinner : bool;
  inputValue : string
}.

Definition render_window (apiBaseUrl : string) (st : ChatWindow.State)
  : WindowView :=
  let some := bool_decide (0 < length (ChatWindow.messages st)) in
  {| heading := some;
     bubbles := if some then bubble_props apiBaseUrl st else [];
     emptyState := negb some;
     spinner := ChatWindow.isLoading st;
     inputValue := ChatWindow.input st |}.

Inductive Body : Type :=
| user_heading (content : string)
| answer (elements : list Element).

(** What a bubble shows: the source bubbles under the header "Sources"
    (when shown), the body, the feedback buttons and the divider. *)
Record BubbleView : Type := {
  sourcesHeader : bool;
  sourceBubbles : list Source;
  body : Body;
  buttons : bool;
  divider : bool
}.

(** The bubble for [p] when its highlight states are [hl]. *)
Definition render_bubble (p : Props) (hl : list bool) : BubbleView :=
  let isUser := bool_decide (role (message p) = user) in
  let fs := filterSources (default [] (sources (message p))) in
  let show := negb isUser && bool_decide (0 < length (filtered fs)) in
  {| sourcesHeader := show;
     sourceBubbles := if show then filtered fs else [];
     body :=
       if isUser then user_heading (content (message p))
       else answer
              (match role (message p) with
               | assistant =>
                   createAnswerElements (content (message p)) (filtered fs)
                     (indexMap fs) hl
               | _ => []
               end);
     buttons := buttons_rendered p;
     divider := negb isUser |}.

End View.

(** ** Notions for: the order of the filtered sources *)

Module DedupDefs.
Import ChatMessageBubble.
Import CitationsDefs.

(** Keep a source unless one with its URL is already kept. *)
Definition keep_first (acc : list Source) (s : Source) : list Source :=
  if bool_decide (url s ∈ url <$> acc) then acc else acc ++ [s].

(** The sources with every later duplicate of a URL dropped. *)
Definition firsts (l : list Source) : list Source := foldl keep_first [] l.

Definition three_distinct : list Source :=
  Demo.src <$> ["a"; "b"; "c"].

(** The loop keeps [filtered] equal to the first occurrences so far, and
    maps each first occurrence to the number of URLs kept before it. *)
Record order_inv (pre : list Source) (st : FilterState) : Prop := {
  ord_filtered : filtered st = firsts pre;
  ord_index : ∀ k s, pre !! k = Some s → first_index (url s) pre = Some k →
      indexMap st !! k = Some (length (firsts (take k pre)))
}.

End DedupDefs.

(** ** Notions for: the citation pattern *)

Module PatternDefs.
Import ChatMessageBubble.

Fixpoint all_digits (s : string) : bool :=
  match s with
  | EmptyString => true
  | String c r => is_digit c && all_digits r
  end.

(** The words [\^?] matches. *)
Definition caret_or_empty (c : string) : Prop := c = "" ∨ c = "^".

(** The words of the citation pattern, with the digits of the group. *)
Definition marker (t g : string) : Prop :=
  ∃ c1 c2, caret_or_empty c1 ∧ caret_or_empty c2 ∧ g ≠ "" ∧
           all_digits g = true ∧ t = "[" +:+ c1 +:+ g +:+ c2 +:+ "]".

(** None of the first [n] characters of [s] is an opening bracket. *)
Fixpoint no_open (n : nat) (s : string) : Prop :=
  match n, s with
  | S n', String c r => c ≠ "["%char ∧ no_open n' r
  | _, _ => True
  end.

(** A match ends before the next one starts. *)
Definition before (m1 m2 : RegExpMatch) : Prop :=
  m_index m1 + String.length (m_text m1) ≤ m_index m2.

End PatternDefs.

(** ** Notions for: the elements of an answer *)

Module ElementsDefs.
Import ChatMessageBubble.

(** The matches whose resolved number is an index into the filtered
    sources: the markers that become citations. *)
Definition cited (content : string) (fs : list Source) (im : gmap nat nat)
  : list RegExpMatch :=
  filter (λ m, resolve im (parseInt (m_group m)) < length fs) (matchAll content).

(** For each cited marker in turn, a span with the content since the end
    of the previous cited marker and the citation; then a span with what
    is left. *)
Fixpoint pieces (content : string) (fs : list Source) (im : gmap nat nat)
    (hl : list bool) (prev : nat) (ms : list RegExpMatch) : list Element :=
  match ms with
  | [] => [span prev (JS.slice_from content prev)]
  | m :: ms' =>
      let n := resolve im (parseInt (m_group m)) in
      span prev (JS.slice content prev (m_index m))
        :: InlineCitation prev (fs !! n) n (hl !! n)
        :: pieces content fs im hl (m_index m + String.length (m_text m)) ms'
  end.

(** The html of the spans with, in the place of each citation, the text
    of the marker it stands for. *)
Fixpoint texts (es : list Element) (ms : list RegExpMatch) : string :=
  match es, ms with
  | span _ h :: InlineCitation _ _ _ _ :: es', m :: ms' =>
      h +:+ m_text m +:+ texts es' ms'
  | [span _ h], [] => h
  | _, _ => ""
  end.

(** The markers are where the content says, in order, from [prev] on. *)
Definition located (content : string) (prev : nat) (ms : list RegExpMatch)
  : Prop :=
  StronglySorted PatternDefs.before ms ∧
  Forall (λ m, prev ≤ m_index m ∧
               ∃ rest, JS.drop_str (m_index m) content = m_text m +:+ rest) ms.

End ElementsDefs.

(** ** Notions for: feedback over time *)

Module FeedbackTraceDefs.
Import ChatMessageBubble.

(** The loading flag of the bubble is set exactly while a request is in
    flight, and at most one is. *)
Definition tight (m : Machine) : Prop :=
  match inflight m with
  | [] => isLoading (state m) = false
  | [_] => isLoading (state m) = true ∧ feedback (state m) = None
  | _ => False
  end.

(** What the buttons put in a request. *)
Definition from_buttons (b : Feedback) : Prop :=
  key b = "user_score" ∧ (score b = 0%Z ∨ score b = 1%Z) ∧ run_id b ≠ "".

Definition well_sent (e : Effect) : Prop :=
  match e with
  | fetch _ method body => method = POST ∧ from_buttons body
  | _ => True
  end.

(** A request that does not end with [code === 200]. *)
Definition unsuccessful (o : Outcome) : Prop :=
  match o with
  | rejected _ => True
  | resolved code => code ≠ JS.number 200
  end.

(** What the end of such a request adds to the effects. *)
Definition failure_effects (o : Outcome) : list Effect :=
  match o with
  | rejected msg => [console_error; toast_error msg]
  | resolved _ => []
  end.

(** The message of the props has no usable run id. *)
Definition no_run_id (p : Props) : Prop :=
  runId (message p) = None ∨ runId (message p) = Some "".

Definition without_run : Props :=
  {| message :=
       {| id := "m2"; content := "hello"; role := assistant;
          runId := None; sources := None |};
     isMostRecent := true; messageCompleted := true;
     apiBaseUrl := "http://localhost:8080" |}.

(** What the log, the requests in flight and the stored feedback hold when
    all of it came from the buttons. *)
Record buttons_only (m : Machine) : Prop := {
  bo_log : Forall well_sent (log m);
  bo_inflight : Forall from_buttons (inflight m);
  bo_stored : ∀ f, feedback (state m) = Some f →
      from_buttons f ∧ fb_comment f = None
}.

End FeedbackTraceDefs.

(** ** Notions for: the window over time *)

Module WindowTraceDefs.
Import ChatWindow.

Definition is_finished (c : Call) : bool :=
  match c with finished => true | _ => false end.

(** A call that is over: nothing will happen to it any more. *)
Definition settled (c : Call) : Prop :=
  match c with finished | failed => True | _ => False end.

(** The window is loading and no call is left that could clear the flag. *)
Definition stuck (sys : System) : Prop :=
  isLoading (window sys) = true ∧ Forall settled (calls sys).

(** What an event types into the input field, and the last text typed
    in the course of some events. *)
Definition typed_by (e : Event) : option string :=
  match e with change text => Some text | _ => None end.

Definition last_typed (evs : list Event) : option string :=
  last (omap typed_by evs).

(** The events that concern the call [k]. *)
Definition about (k : nat) (e : Event) : Prop :=
  match e with
  | submit _ _ _ | change _ => False
  | fetch_rejects j | fetch_resolves j _ | read j _ _ => j = k
  end.

(** What the callback takes from an object that may have several of the
    three properties: it looks for [run_id] only without [tok], and for
    [sources] only without both. *)
Definition read_run_id (o : Parsed.t) : option string :=
  match Parsed.tok o with Some _ => None | None => Parsed.run_id o end.

Definition read_sources (o : Parsed.t) : option (list Source) :=
  match Parsed.tok o, Parsed.run_id o with
  | None, None => Parsed.sources o
  | _, _ => None
  end.

(** A chunk whose one line has both a token and a run id. *)
Definition both : Parsed.t :=
  {| Parsed.tok := Some "x"; Parsed.run_id := Some "R"; Parsed.sources := None |}.

Fixpoint all_space (s : string) : bool :=
  match s with
  | EmptyString => true
  | String c r => JS.is_space c && all_space r
  end.

Fixpoint no_line_feed (s : string) : bool :=
  match s with
  | EmptyString => true
  | String c r => negb (Ascii.eqb c "010"%char) && no_line_feed r
  end.

(** A line as the protocol has them: an object, on one line. *)
Definition framed (l : string) : Prop :=
  ∃ body, l = "{" +:+ body +:+ "}" ∧ no_line_feed body = true.

(** The text of a chunk carrying the lines [ls], each ended by a line
    feed. *)
Definition chunk_of (ls : list string) : string :=
  foldr (λ l acc, l +:+ Demo.newline +:+ acc) "" ls.

(** The lines [ls] with a line feed between them. *)
Fixpoint join_lines (ls : list string) : string :=
  match ls with
  | [] => ""
  | [l] => l
  | l :: ls' => l +:+ Demo.newline +:+ join_lines ls'
  end.

(** Two responses under way, the first with its slot in the list, the
    second still without a chunk, and the loading flag cleared by the
    last chunk of the first. *)
Definition two_under_way : System :=
  ChatWindow.run Demo.JSON_parse Demo.marked_parse start
    [submit (Some "a") "0.1" "c"; fetch_resolves 0 true;
     read 0 (value (Demo.line_of "tok" "x")) "0.2";
     submit (Some "b") "0.3" "c"; fetch_resolves 1 true;
     read 0 (value (Demo.line_of "tok" "y")) "0.4"].

(** A window whose only call is over and which is not loading. *)
Definition at_rest : System :=
  ChatWindow.run Demo.JSON_parse Demo.marked_parse start
    [submit (Some "a") "0.1" "c"; fetch_resolves 0 true;
     read 0 (value (Demo.line_of "tok" "x")) "0.2"; read 0 done ""].

(** A window whose last response had no body. *)
Definition hung : System :=
  ChatWindow.run Demo.JSON_parse Demo.marked_parse at_rest
    [submit (Some "b") "0.3" "c"; fetch_resolves 1 false].

(** A window whose first response is about to be read. *)
Definition awaiting_chunk : System :=
  ChatWindow.run Demo.JSON_parse Demo.marked_parse start
    [submit (Some "a") "0.1" "c"; fetch_resolves 0 true].


(** The window after a third submission failed while the second response
    delivered its first chunk: the slot of that response is gone. *)
Definition slot_gone : System :=
  ChatWindow.run Demo.JSON_parse Demo.marked_parse two_under_way
    [submit (Some "c") "0.5" "c";
     read 1 (value (Demo.line_of "tok" "z")) "0.6";
     fetch_rejects 2].

Definition slot_gone_stream : Stream :=
  {| messageValue := "b"; accumulatedMessage := "z"; runId := None;
     sources := None; messageIndex := Some 4 |}.

Definition slot_gone_stream_next : Stream :=
  {| messageValue := "b"; accumulatedMessage := "zw"; runId := None;
     sources := None; messageIndex := Some 4 |}.

End WindowTraceDefs.

(** ** Notions for: the trace link and the views *)

Module ViewDefs.
Import ChatMessageBubble.

Fixpoint has_quote (s : string) : bool :=
  match s with
  | EmptyString => false
  | String c r => Trace.is_quote c || has_quote r
  end.

(** A message list of a user message and its answer. *)
Definition answered : ChatWindow.State :=
  {| ChatWindow.messages :=
       [ChatWindow.userMessage "0.1" "a";
        {| id := "0.2"; content := "x [0]"; role := assistant;
           runId := Some "run-1"; sources := Some [Demo.src "u"] |}];
     ChatWindow.input := ""; ChatWindow.isLoading := false;
     ChatWindow.chatHistory := []; ChatWindow.grow := true;
     ChatWindow.unmounted := false |}.

(** The props of the bubble of its last message. *)
Definition answer_props : Props :=
  {| message :=
       {| id := "0.2"; content := "x [0]"; role := assistant;
          runId := Some "run-1"; sources := Some [Demo.src "u"] |};
     isMostRecent := true; messageCompleted := true; apiBaseUrl := "b" |}.

End ViewDefs.

(** * Properties *)

(** ** The helpers on concrete inputs *)

Module Examples.
Import ChatMessageBubble.

Example slice_marker : JS.slice "hello [1] world" 6 9 = "[1]".
Proof. reflexivity. Qed.

Example slice_empty_when_reversed : JS.slice "hello" 4 2 = "".
Proof. reflexivity. Qed.

Example trim_both_ends : JS.trim (Demo.newline +:+ " a b  ") = "a b".
Proof. reflexivity. Qed.

Example split_keeps_empty_pieces :
  JS.split_lines ("a" +:+ Demo.newline +:+ "b" +:+ Demo.newline) = ["a"; "b"; ""].
Proof. reflexivity. Qed.

Example split_of_empty : JS.split_lines "" = [""].
Proof. reflexivity. Qed.

Example matchAll_markers :
  matchAll "a [1] b [^23^] [x] [^4] [] [[6]] [7"
  = [ {| m_index := 2; m_text := "[1]"; m_group := "1" |};
      {| m_index := 8; m_text := "[^23^]"; m_group := "23" |};
      {| m_index := 19; m_text := "[^4]"; m_group := "4" |};
      {| m_index := 28; m_text := "[6]"; m_group := "6" |} ].
Proof. reflexivity. Qed.

Example parseInt_leading_zero : parseInt "012" = 12.
Proof. reflexivity. Qed.

Example render_two_markers :
  createAnswerElements "see [0] and [^1^]."
    [Demo.src "a"; Demo.src "b"] {[ 0 := 0; 1 := 1 ]} [false; false]
  = [ span 0 "see ";
      InlineCitation 0 (Some (Demo.src "a")) 0 (Some false);
      span 7 " and ";
      InlineCitation 7 (Some (Demo.src "b")) 1 (Some false);
      span 17 "." ].
Proof. vm_compute. reflexivity. Qed.

Example parse_token_line :
  Demo.JSON_parse (Demo.line_of "tok" "Hel")
  = Some {| ChatWindow.Parsed.tok := Some "Hel";
            ChatWindow.Parsed.run_id := None;
            ChatWindow.Parsed.sources := None |}.
Proof. reflexivity. Qed.

Example parse_rejects_half_a_line : Demo.JSON_parse "{" = None.
Proof. reflexivity. Qed.

End Examples.

(** ** Source de-duplication and citations *)

Module Citations.
Import ChatMessageBubble.
Import CitationsDefs.

Lemma first_index_snoc u pre s :
  first_index u (pre ++ [s]) =
  match first_index u pre with
  | Some j => Some j
  | None => if bool_decide (url s = u) then Some (length pre) else None
  end.
Proof.
  induction pre as [|a pre IH]; simpl.
  - by case_bool_decide.
  - rewrite IH. destruct (bool_decide (url a = u)); [done|].
    destruct (first_index u pre); simpl; [done|].
    by destruct (bool_decide (url s = u)).
Qed.

Lemma first_index_lt u l j : first_index u l = Some j → j < length l.
Proof.
  revert j. induction l as [|a l IH]; intros j; simpl; [done|].
  case_bool_decide; [intros [= <-]; lia|].
  destruct (first_index u l) as [k|]; simpl; [|done].
  intros [= <-]. specialize (IH k eq_refl). lia.
Qed.

Lemma first_index_lookup u l j :
  first_index u l = Some j → ∃ s, l !! j = Some s ∧ url s = u.
Proof.
  revert j. induction l as [|a l IH]; intros j; simpl; [done|].
  case_bool_decide; [intros [= <-]; eauto|].
  destruct (first_index u l) as [k|]; simpl; [|done].
  intros [= <-]. by apply IH.
Qed.

Lemma first_index_is_Some l k s :
  l !! k = Some s → ∃ j, first_index (url s) l = Some j ∧ j ≤ k.
Proof.
  revert k. induction l as [|a l IH]; intros k; [done|]. simpl.
  case_bool_decide; [intros _; exists 0; split; [done|lia]|].
  destruct k as [|k]; simpl; [intros [= ->]; done|].
  intros Hk. destruct (IH _ Hk) as (j & -> & Hj). exists (S j). split; [done|lia].
Qed.

Lemma filter_inv_init : filter_inv [] filter_init.
Proof. split; simpl; try done. constructor. Qed.

Lemma filter_inv_step pre st s :
  filter_inv pre st → filter_inv (pre ++ [s]) (filter_step st (length pre) s).
Proof.
  intros [Hu Hf Hd Hdom Hnd Hsub]. unfold filter_step. rewrite Hu.
  destruct (first_index (url s) pre) as [j|] eqn:Hj; simpl.
  - (* a URL seen before *)
    split; simpl.
    + intros u. rewrite first_index_snoc, Hu.
      destruct (first_index u pre) eqn:E; [done|].
      case_bool_decide; congruence.
    + intros k s' Hk Hfi. rewrite first_index_snoc in Hfi.
      destruct (decide (k = length pre)) as [->|Hne].
      * rewrite lookup_app_r, Nat.sub_diag in Hk by lia. injection Hk as <-.
        rewrite Hj in Hfi. injection Hfi as ->.
        apply first_index_lt in Hj. lia.
      * assert (k < length pre).
        { apply lookup_lt_Some in Hk. rewrite length_app in Hk. simpl in Hk. lia. }
        rewrite lookup_app_l in Hk by done.
        rewrite lookup_insert_ne by done.
        destruct (first_index_is_Some _ _ _ Hk) as (j' & Hj' & _).
        rewrite Hj' in Hfi. injection Hfi as ->. by apply Hf.
    + intros k s' j' Hk Hfi Hne. rewrite first_index_snoc in Hfi.
      destruct (decide (k = length pre)) as [->|Hne'].
      * rewrite lookup_app_r, Nat.sub_diag in Hk by lia. injection Hk as <-.
        rewrite Hj in Hfi. injection Hfi as <-. by rewrite lookup_insert_eq.
      * assert (k < length pre).
        { apply lookup_lt_Some in Hk. rewrite length_app in Hk. simpl in Hk. lia. }
        rewrite lookup_app_l in Hk by done.
        rewrite lookup_insert_ne by done.
        destruct (first_index_is_Some _ _ _ Hk) as (j'' & Hj'' & _).
        rewrite Hj'' in Hfi. injection Hfi as ->. by eapply Hd.
    + intros k Hk. rewrite length_app in Hk. simpl in Hk.
      rewrite lookup_insert_ne by lia. apply Hdom. lia.
    + done.
    + intros s' Hs'. apply elem_of_app. left. by apply Hsub.
  - (* a new URL *)
    split; simpl.
    + intros u. rewrite first_index_snoc.
      destruct (decide (url s = u)) as [<-|Hne].
      * rewrite lookup_insert_eq, Hj. by rewrite bool_decide_eq_true_2.
      * rewrite lookup_insert_ne, Hu by done.
        destruct (first_index u pre); [done|]. by rewrite bool_decide_eq_false_2.
    + intros k s' Hk Hfi. rewrite first_index_snoc in Hfi.
      destruct (decide (k = length pre)) as [->|Hne].
      * rewrite lookup_app_r, Nat.sub_diag in Hk by lia. injection Hk as <-.
        exists (length (filtered st)). rewrite lookup_insert_eq. split; [done|].
        by rewrite lookup_app_r, Nat.sub_diag by lia.
      * assert (k < length pre).
        { apply lookup_lt_Some in Hk. rewrite length_app in Hk. simpl in Hk. lia. }
        rewrite lookup_app_l in Hk by done.
        rewrite lookup_insert_ne by done.
        destruct (first_index_is_Some _ _ _ Hk) as (j' & Hj' & _).
        rewrite Hj' in Hfi. injection Hfi as ->.
        destruct (Hf _ _ Hk Hj') as (p & Hp & Hp'). exists p. split; [done|].
        rewrite lookup_app_l; [done|]. by eapply lookup_lt_Some.
    + intros k s' j' Hk Hfi Hne. rewrite first_index_snoc in Hfi.
      destruct (decide (k = length pre)) as [->|Hne'].
      * rewrite lookup_app_r, Nat.sub_diag in Hk by lia. injection Hk as <-.
        rewrite Hj, bool_decide_eq_true_2 in Hfi by done. congruence.
      * assert (k < length pre).
        { apply lookup_lt_Some in Hk. rewrite length_app in Hk. simpl in Hk. lia. }
        rewrite lookup_app_l in Hk by done.
        rewrite lookup_insert_ne by done.
        destruct (first_index_is_Some _ _ _ Hk) as (j'' & Hj'' & _).
        rewrite Hj'' in Hfi. injection Hfi as ->. by eapply Hd.
    + intros k Hk. rewrite length_app in Hk. simpl in Hk.
      rewrite lookup_insert_ne by lia. apply Hdom. lia.
    + rewrite fmap_app. simpl. apply NoDup_app. split; [done|]. split.
      * intros u Hin Hin'. apply list_elem_of_singleton in Hin'. subst u.
        apply list_elem_of_fmap in Hin as (s' & Heq & Hs').
        apply Hsub in Hs'. apply list_elem_of_lookup in Hs' as (k & Hk).
        destruct (first_index_is_Some _ _ _ Hk) as (j' & Hj' & _). congruence.
      * apply NoDup_singleton.
    + intros s' Hs'. apply elem_of_app in Hs' as [Hs'|Hs'].
      * apply elem_of_app. left. by apply Hsub.
      * apply elem_of_app. by right.
Qed.

Lemma filter_loop_inv l pre st :
  filter_inv pre st → filter_inv (pre ++ l) (filter_loop st (length pre) l).
Proof.
  revert pre st. induction l as [|s l IH]; intros pre st Hinv; simpl.
  - by rewrite app_nil_r.
  - replace (pre ++ s :: l) with ((pre ++ [s]) ++ l) by by rewrite <- app_assoc.
    replace (S (length pre)) with (length (pre ++ [s]))
      by (rewrite length_app; simpl; lia).
    apply IH. by apply filter_inv_step.
Qed.

Lemma filterSources_inv l : filter_inv l (filterSources l).
Proof. apply (filter_loop_inv l [] filter_init filter_inv_init). Qed.

(** Sources sharing a URL collapse: the filtered list holds every URL of
    the source list once, on a source of that list. *)
Lemma filterSources_collapses (l : list Source) :
  NoDup (url <$> filtered (filterSources l)) ∧
  (∀ s, s ∈ filtered (filterSources l) → s ∈ l) ∧
  (∀ s, s ∈ l → ∃ s', s' ∈ filtered (filterSources l) ∧ url s' = url s).
Proof.
  destruct (filterSources_inv l) as [Hu Hf Hd Hdom Hnd Hsub].
  split; [done|]. split; [done|].
  intros s Hs. apply list_elem_of_lookup in Hs as (k & Hk).
  destruct (first_index_is_Some _ _ _ Hk) as (j & Hj & _).
  destruct (first_index_lookup _ _ _ Hj) as (s' & Hs' & Hurl).
  rewrite <- Hurl in Hj.
  destruct (Hf _ _ Hs' Hj) as (p & _ & Hp).
  exists s'. split; [|done]. apply list_elem_of_lookup. eauto.
Qed.

(** The first source with a URL is mapped to its own place in the filtered
    list. *)
Lemma filterSources_first_occurrence (l : list Source) k s :
  l !! k = Some s → first_index (url s) l = Some k →
  ∃ p, indexMap (filterSources l) !! k = Some p ∧
       filtered (filterSources l) !! p = Some s.
Proof. apply (inv_first _ _ (filterSources_inv l)). Qed.

(** A later source with the same URL is mapped to the index the first one
    has in the source list, which is not an index into the filtered list. *)
Lemma filterSources_duplicate (l : list Source) k s j :
  l !! k = Some s → first_index (url s) l = Some j → j ≠ k →
  indexMap (filterSources l) !! k = Some j.
Proof. apply (inv_dup _ _ (filterSources_inv l)). Qed.

(** Indices past the source list are not in the index map. *)
Lemma filterSources_unmapped (l : list Source) k :
  length l ≤ k → indexMap (filterSources l) !! k = None.
Proof. apply (inv_dom _ _ (filterSources_inv l)). Qed.

(** A match whose resolved number is out of range leaves the rendering
    state as it is: its text stays in the surrounding span. *)
Lemma render_match_out_of_range content fs im hl st m :
  length fs ≤ resolve im (parseInt (m_group m)) →
  render_match content fs im hl st m = st.
Proof.
  intros H. unfold render_match. rewrite bool_decide_eq_false_2; [done|lia].
Qed.

Lemma slice_from_0 s : JS.slice_from s 0 = s.
Proof. by destruct s. Qed.

(** Content none of whose markers resolves into the filtered list is
    rendered as one span of text. *)
Lemma createAnswerElements_plain content fs im hl :
  (∀ m, m ∈ matchAll content → length fs ≤ resolve im (parseInt (m_group m))) →
  createAnswerElements content fs im hl = [span 0 content].
Proof.
  intros H. unfold createAnswerElements.
  assert (foldl (render_match content fs im hl)
            {| elements := []; prevIndex := 0 |} (matchAll content)
          = {| elements := []; prevIndex := 0 |}) as ->.
  { induction (matchAll content) as [|m ms IH]; simpl; [done|].
    rewrite render_match_out_of_range by (apply H; left).
    apply IH. intros m' Hm'. apply H. by right. }
  cbn [elements prevIndex app]. by rewrite slice_from_0.
Qed.

(** With at most ten filtered sources, a marker the index map does not
    hold is text. *)
Lemma unmapped_marker_plain content fs im hl st m :
  length fs ≤ 10 → im !! parseInt (m_group m) = None →
  render_match content fs im hl st m = st.
Proof.
  intros Hlen Hnone. apply render_match_out_of_range.
  unfold resolve. rewrite Hnone. simpl. lia.
Qed.

(** With more than ten filtered sources, a marker the index map does not
    hold is rendered as a citation of the entry 10. *)
Lemma unmapped_marker_cites_10 content fs im hl st m :
  10 < length fs → im !! parseInt (m_group m) = None →
  render_match content fs im hl st m =
  {| elements :=
       elements st ++
         [ span (prevIndex st) (JS.slice content (prevIndex st) (m_index m));
           InlineCitation (prevIndex st) (fs !! 10) 10 (hl !! 10) ];
     prevIndex := m_index m + String.length (m_text m) |}.
Proof.
  intros Hlen Hnone. unfold render_match, resolve. rewrite Hnone. simpl.
  by rewrite bool_decide_eq_true_2.
Qed.

(** C1, at the sources with URLs a, a, b, c, b and the content "[4]": the
    two sources with URL b collapse to the filtered entry 1, but the index
    map sends the duplicate, source 4, to 2, the index the first b has in
    the source list, and the marker is rendered as a citation of the
    filtered entry 2, the source with URL c. *)
Theorem duplicate_marker_misresolved :
  filtered (filterSources five) = Demo.src <$> ["a"; "b"; "c"] ∧
  indexMap (filterSources five) !! 2 = Some 1 ∧
  indexMap (filterSources five) !! 4 = Some 2 ∧
  answerElements
    {| id := "m"; content := "[4]"; role := assistant; runId := None;
       sources := Some five |}
  = [span 0 ""; InlineCitation 0 (Some (Demo.src "c")) 2 (Some false);
     span 3 ""].
Proof. vm_compute. done. Qed.

(** C2, at eleven sources with distinct URLs and the content "[99]": the
    index map does not hold 99, the marker resolves to the constant 10, and
    it is rendered as a citation of the filtered entry 10. *)
Theorem unmapped_marker_cited :
  filtered (filterSources eleven) = eleven ∧
  indexMap (filterSources eleven) !! 99 = None ∧
  answerElements
    {| id := "m"; content := "[99]"; role := assistant; runId := None;
       sources := Some eleven |}
  = [span 0 ""; InlineCitation 0 (Some (Demo.src "u10")) 10 (Some false);
     span 4 ""].
Proof. vm_compute. done. Qed.

End Citations.

(** ** Feedback *)

Module FeedbackFacts.
Import ChatMessageBubble.
Import FeedbackDefs.

Lemma quiet_mounted : quiet mounted.
Proof. exact I. Qed.

Lemma quiet_step m pe : quiet m → quiet (step m pe).
Proof.
  destruct m as [[ld fb cm col] fl lg], pe as [p [b uuid|k o]];
    unfold quiet, step; simpl.
  - destruct (buttons_rendered p); [|done].
    unfold onClick, sendFeedback; simpl.
    destruct fb as [f|]; simpl; [by rewrite app_nil_r|].
    destruct (runId (message p)) as [[|c r]|]; simpl;
      try by rewrite app_nil_r.
    destruct ld; simpl; [by rewrite app_nil_r|].
    destruct fl as [|x [|y fl]]; simpl; [done|by intros [? _]|done].
  - destruct fl as [|x [|y fl]]; [by destruct k|..|done].
    intros [-> ->]. destruct k as [|k]; simpl; [|done].
    unfold sendFeedback_resume. destruct o as [msg|code]; simpl; [done|].
    by destruct (JS.strict_eq_number code 200).
Qed.

Lemma run_app m evs1 evs2 : run m (evs1 ++ evs2) = run (run m evs1) evs2.
Proof. apply foldl_app. Qed.

Lemma quiet_run evs m : quiet m → quiet (run m evs).
Proof.
  revert m. induction evs as [|pe evs IH]; intros m Hm; simpl; [done|].
  apply IH. by apply quiet_step.
Qed.

Lemma stored_click p st b uuid f :
  feedback st = Some f →
  onClick p st b uuid = (st, [toast_error already], None).
Proof. intros H. unfold onClick. by rewrite H. Qed.

Lemma stored_step m pe f :
  quiet m → feedback (state m) = Some f →
  step m pe =
  {| state := state m; inflight := []; log := log m ++ rejection pe |}.
Proof.
  intros Hq Hf.
  assert (inflight m = []) as Hfl.
  { unfold quiet in Hq. destruct (inflight m) as [|x [|y fl]]; [done|..|done].
    destruct Hq as [_ Hq]. congruence. }
  destruct m as [st fl lg], pe as [p [b uuid|k o]]; simpl in *; subst fl;
    unfold step, rejection; simpl.
  - destruct (buttons_rendered p); [|by rewrite app_nil_r].
    by rewrite (stored_click _ _ _ _ _ Hf).
  - by rewrite app_nil_r.
Qed.

Lemma stored_run evs m f :
  quiet m → feedback (state m) = Some f →
  run m evs =
  {| state := state m; inflight := [];
     log := log m ++ concat (rejection <$> evs) |}.
Proof.
  revert m. induction evs as [|pe evs IH]; intros m Hq Hf; simpl.
  - rewrite app_nil_r. destruct m as [st fl lg]; simpl in *.
    unfold quiet in Hq; simpl in Hq.
    destruct fl as [|x [|y fl]]; [done|..|done].
    destruct Hq as [_ Hq]. congruence.
  - rewrite (stored_step _ _ _ Hq Hf).
    rewrite IH; simpl; [by rewrite <- app_assoc|exact I|done].
Qed.

(** C4: once a feedback record is stored in a bubble, whatever happens next
    leaves the state of the bubble as it is, so nothing is stored a second
    time; every later click on a feedback button only shows the notice that
    feedback was already provided, and no feedback request is sent. *)
Theorem feedback_once (evs1 evs2 : list (Props * Event)) (f : Feedback) :
  feedback (state (run mounted evs1)) = Some f →
  state (run mounted (evs1 ++ evs2)) = state (run mounted evs1) ∧
  inflight (run mounted (evs1 ++ evs2)) = [] ∧
  log (run mounted (evs1 ++ evs2))
    = log (run mounted evs1) ++ concat (rejection <$> evs2) ∧
  filter is_fetch (concat (rejection <$> evs2)) = [] ∧
  ∀ p b uuid,
    onClick p (state (run mounted (evs1 ++ evs2))) b uuid
    = (state (run mounted evs1), [toast_error already], None).
Proof.
  intros Hf. rewrite run_app.
  rewrite (stored_run evs2 _ f (quiet_run _ _ quiet_mounted) Hf). simpl.
  repeat split; try done.
  - induction evs2 as [|pe evs2 IH]; [done|].
    change (concat (rejection <$> pe :: evs2))
      with (rejection pe ++ concat (rejection <$> evs2)).
    rewrite filter_app, IH.
    destruct pe as [p [b u|k o]]; unfold rejection; simpl; [|done].
    by destruct (buttons_rendered p).
  - intros p b uuid. apply (stored_click _ _ _ _ f Hf).
Qed.

Lemma feedback_once_witness :
  feedback (state (run mounted thumbs_up)) = Some kept ∧
  state (run mounted (thumbs_up ++ more_clicks)) = state (run mounted thumbs_up) ∧
  inflight (run mounted (thumbs_up ++ more_clicks)) = [] ∧
  log (run mounted (thumbs_up ++ more_clicks))
    = log (run mounted thumbs_up) ++ concat (rejection <$> more_clicks) ∧
  filter is_fetch (concat (rejection <$> more_clicks)) = [] ∧
  ∀ p b uuid,
    onClick p (state (run mounted (thumbs_up ++ more_clicks))) b uuid
    = (state (run mounted thumbs_up), [toast_error already], None).
Proof.
  split; [reflexivity|].
  apply (feedback_once thumbs_up more_clicks kept). reflexivity.
Defined.

(** C9: a call of [sendFeedback] that gets past its guards sends one
    request, with PATCH when the stored feedback has a feedback id and POST
    otherwise, carrying the score, run id, key, feedback id and comment;
    when the response decodes, the stored feedback becomes the record of
    this submission if [code === 200] and is left as it is on every other
    code, as it is when the request or the decoding fails. *)
Theorem feedback_stored_on_200 (p : Props) (st : State) (sc : Z)
    (ky uuid rid : string) :
  runId (message p) = Some rid →
  isLoading st = false →
  ∃ method body,
    sendFeedback p st sc ky uuid
      = (setIsLoading true st,
         [fetch (apiBaseUrl p +:+ "/feedback") method body], Some body) ∧
    (method = PATCH ↔ ∃ f, feedback st = Some f ∧ feedback_id f ≠ "") ∧
    (method = POST ↔ ¬ ∃ f, feedback st = Some f ∧ feedback_id f ≠ "") ∧
    body = {| feedback_id :=
                match feedback st with Some f => feedback_id f | None => uuid end;
              run_id := rid; key := ky; score := sc;
              fb_comment := Some (comment st) |} ∧
    ∀ st',
      (∀ code,
         feedback (sendFeedback_resume st' body (resolved code)).1 =
         if bool_decide (code = JS.number 200)
         then Some {| feedback_id := feedback_id body; run_id := rid;
                      key := ky; score := sc; fb_comment := None |}
         else feedback st') ∧
      (∀ msg,
         feedback (sendFeedback_resume st' body (rejected msg)).1 = feedback st').
Proof.
  intros Hrun Hload. unfold sendFeedback. rewrite Hrun, Hload.
  eexists _, _. split; [reflexivity|]. split; [|split; [|split; [reflexivity|]]].
  - destruct (feedback st) as [f|]; [|split; [done|by intros (? & ? & _)]].
    destruct (feedback_id f) eqn:E; simpl.
    + split; [done|]. intros (f' & [= <-] & Hne). done.
    + split; [|done]. intros _. exists f. by rewrite E.
  - destruct (feedback st) as [f|]; [|split; [by intros _ (? & ? & _)|done]].
    destruct (feedback_id f) eqn:E; simpl.
    + split; [|done]. intros _ (f' & [= <-] & Hne). done.
    + split; [done|]. intros Hn. exfalso. apply Hn. exists f. by rewrite E.
  - intros st'. split.
    + intros code. unfold sendFeedback_resume.
      destruct code as [| |b|n|s|]; simpl; try done.
      repeat case_bool_decide; simplify_eq; simpl; try done.
      all: by destruct (JS.truthy (comment st)).
    + done.
Qed.

Lemma feedback_stored_on_200_witness :
  ∃ method body,
    sendFeedback shown mount 1 "user_score" "id-1"
      = (setIsLoading true mount,
         [fetch (apiBaseUrl shown +:+ "/feedback") method body], Some body) ∧
    (method = PATCH ↔ ∃ f, feedback mount = Some f ∧ feedback_id f ≠ "") ∧
    (method = POST ↔ ¬ ∃ f, feedback mount = Some f ∧ feedback_id f ≠ "") ∧
    body = {| feedback_id :=
                match feedback mount with
                | Some f => feedback_id f | None => "id-1" end;
              run_id := "run-1"; key := "user_score"; score := 1;
              fb_comment := Some (comment mount) |} ∧
    ∀ st',
      (∀ code,
         feedback (sendFeedback_resume st' body (resolved code)).1 =
         if bool_decide (code = JS.number 200)
         then Some {| feedback_id := feedback_id body; run_id := "run-1";
                      key := "user_score"; score := 1; fb_comment := None |}
         else feedback st') ∧
      (∀ msg,
         feedback (sendFeedback_resume st' body (rejected msg)).1 = feedback st').
Proof.
  apply (feedback_stored_on_200 shown mount 1 "user_score" "id-1" "run-1");
    reflexivity.
Defined.

End FeedbackFacts.

(** ** Submission *)

Module Submission.
Import ChatWindow.
Import SubmissionDefs.

Section Libraries.

Variable JSON_parse : string -> option Parsed.t.
Variable marked_parse : string -> string.

Local Abbreviation step := (step JSON_parse marked_parse).
Local Abbreviation run := (run JSON_parse marked_parse).

Lemma slice_0_m1_snoc {A} (l : list A) x : slice_0_m1 (l ++ [x]) = l.
Proof.
  unfold slice_0_m1. rewrite length_app. simpl.
  replace (length l + 1 - 1) with (length l) by lia.
  by rewrite take_app_length.
Qed.

(** While the flag is set, [sendMessage] sends nothing and changes no
    state cell. *)
Lemma sendMessage_loading cid st message rnd :
  isLoading st = true →
  sendMessage cid st message rnd =
  ({| messages := messages st; input := input st; isLoading := true;
      chatHistory := chatHistory st; grow := true;
      unmounted := unmounted st |}, None).
Proof. intros H. unfold sendMessage. by rewrite H. Qed.

(** Every chunk read clears the flag, whether or not more follow. *)
Lemma chunk_clears_flag s st chunk rnd s' st' :
  processText JSON_parse marked_parse s st (value chunk) rnd = Some (s', st') →
  isLoading st' = false.
Proof.
  unfold processText.
  destruct (accumulate_lines _ _ _) as [s1|]; [|done].
  by destruct (upsert _ _ _ _) as [[s2 l]|]; intros [= _ <-].
Qed.

(** The end of the response leaves the flag as it is. *)
Lemma done_keeps_flag s st rnd :
  ∃ st', processText JSON_parse marked_parse s st done rnd = Some (s, st') ∧
         isLoading st' = isLoading st.
Proof. by eexists. Qed.

(** A call past the guards appends the user message, clears the input,
    sets the flag and sends one request. *)
Lemma sendMessage_sends cid st message rnd :
  isLoading st = false →
  default (input st) message ≠ "" →
  sendMessage cid st message rnd =
  ({| messages := messages st ++ [userMessage rnd (default (input st) message)];
      input := ""; isLoading := true; chatHistory := chatHistory st;
      grow := true;
      unmounted := unmounted st |},
   Some {| message := default (input st) message;
           history := chatHistory st; conversation_id := cid |}).
Proof.
  intros Hl Hne. unfold sendMessage. rewrite Hl.
  by rewrite bool_decide_eq_false_2.
Qed.

(** Only a submission issues a chat request. *)
Lemma requests_step sys e :
  is_submit e = false → requests (step sys e) = requests sys.
Proof.
  destruct e as [m r c|t|k|k b|k res r]; simpl; [done|..]; intros _.
  - done.
  - by destruct (calls sys !! k) as [[]|].
  - by destruct (calls sys !! k) as [[]|].
  - destruct (calls sys !! k) as [[]|]; try done.
    by destruct (processText _ _ _ _ _ _) as [[]|].
Qed.

Lemma requests_run evs sys :
  Forall (λ e, is_submit e = false) evs → requests (run sys evs) = requests sys.
Proof.
  revert sys. induction evs as [|e evs IH]; intros sys Hall; [done|].
  inversion Hall; subst. simpl. rewrite IH by done. by apply requests_step.
Qed.

(** When the request of a submission fails before anything else happens
    in the window, the message list is the one from before the submission,
    the input field holds the submitted text and the loading flag is
    cleared; one request was sent, and nothing that happens afterwards,
    short of another submission, sends one. *)
Lemma failed_request_rolled_back (sys : System) (message : option string)
    (rnd cid : string) :
  isLoading (window sys) = false →
  default (input (window sys)) message ≠ "" →
  let mv := default (input (window sys)) message in
  let sys1 := step sys (submit message rnd cid) in
  let sys2 := step sys1 (fetch_rejects (length (calls sys))) in
  messages (window sys1) = messages (window sys) ++ [userMessage rnd mv] ∧
  requests sys1 =
    requests sys ++ [{| message := mv; history := chatHistory (window sys);
                        conversation_id := cid |}] ∧
  messages (window sys2) = messages (window sys) ∧
  input (window sys2) = mv ∧
  isLoading (window sys2) = false ∧
  chatHistory (window sys2) = chatHistory (window sys) ∧
  calls sys2 = calls sys ++ [failed] ∧
  ∀ evs, Forall (λ e, is_submit e = false) evs →
         requests (run sys2 evs) = requests sys1.
Proof.
  intros Hl Hne mv sys1 sys2.
  assert (sys1 =
    {| window :=
         {| messages := messages (window sys) ++ [userMessage rnd mv];
            input := ""; isLoading := true;
            chatHistory := chatHistory (window sys); grow := true;
            unmounted := unmounted (window sys) |};
       calls := calls sys ++ [fetching mv];
       requests :=
         requests sys ++ [{| message := mv; history := chatHistory (window sys);
                             conversation_id := cid |}] |}) as H1.
  { unfold sys1, step. by rewrite (sendMessage_sends _ _ _ _ Hl Hne). }
  assert (sys2 =
    {| window :=
         {| messages := messages (window sys); input := mv; isLoading := false;
            chatHistory := chatHistory (window sys); grow := true;
            unmounted := unmounted (window sys) |};
       calls := calls sys ++ [failed];
       requests := requests sys1 |}) as H2.
  { unfold sys2. rewrite H1. unfold step. simpl.
    rewrite lookup_app_r, Nat.sub_diag by lia. simpl.
    unfold sendMessage_catch. simpl. rewrite slice_0_m1_snoc.
    rewrite insert_app_r_alt, Nat.sub_diag by lia. done. }
  rewrite H2. simpl. rewrite H1. simpl. repeat split; try done.
  intros evs Hevs. by rewrite requests_run.
Qed.

(** C10: with no message argument and an empty input field, [sendMessage]
    sends no request and leaves the message list, the conversation history,
    the input field and the loading flag as they are. *)
Theorem empty_submission_ignored (sys : System) (rnd cid : string) :
  input (window sys) = "" →
  let sys' := step sys (submit None rnd cid) in
  requests sys' = requests sys ∧
  calls sys' = calls sys ∧
  messages (window sys') = messages (window sys) ∧
  chatHistory (window sys') = chatHistory (window sys) ∧
  input (window sys') = input (window sys) ∧
  isLoading (window sys') = isLoading (window sys).
Proof.
  intros Hin. simpl. unfold sendMessage. rewrite Hin. simpl.
  by destruct (isLoading (window sys)).
Qed.

End Libraries.

Lemma failed_request_rolled_back_witness :
  let sys1 := step Demo.JSON_parse Demo.marked_parse idle (submit None "0.2" "c1") in
  let sys2 := step Demo.JSON_parse Demo.marked_parse sys1 (fetch_rejects 1) in
  messages (window sys2) = [userMessage "0.1" "hi"] ∧
  input (window sys2) = "what is LCEL?" ∧
  isLoading (window sys2) = false.
Proof.
  pose proof (failed_request_rolled_back Demo.JSON_parse Demo.marked_parse
                idle None "0.2" "c1" eq_refl) as H.
  destruct H as (_ & _ & Hm & Hi & Hl & _); [by vm_compute|].
  exact (conj Hm (conj Hi Hl)).
Defined.

Lemma empty_submission_ignored_witness :
  let sys' := step Demo.JSON_parse Demo.marked_parse blank (submit None "0.3" "c1") in
  requests sys' = requests blank ∧
  calls sys' = calls blank ∧
  messages (window sys') = messages (window blank) ∧
  chatHistory (window sys') = chatHistory (window blank) ∧
  input (window sys') = input (window blank) ∧
  isLoading (window sys') = isLoading (window blank).
Proof.
  apply (empty_submission_ignored Demo.JSON_parse Demo.marked_parse blank
           "0.3" "c1"). reflexivity.
Defined.

(** C8, at a response of which one chunk has been read: the loading flag is
    already cleared while the first response is still being read, so a
    second submission sends a second request, and two responses are in
    progress at once. *)
Theorem second_submission_mid_stream :
  let sys := run Demo.JSON_parse Demo.marked_parse start first_chunk in
  let sys' := run Demo.JSON_parse Demo.marked_parse sys second_call in
  in_progress <$> calls sys = [true] ∧
  isLoading (window sys) = false ∧
  requests sys' =
    [{| message := "a"; history := []; conversation_id := "c" |};
     {| message := "b"; history := []; conversation_id := "c" |}] ∧
  in_progress <$> calls sys' = [true; true].
Proof. vm_compute. done. Qed.

(** C3, at a request that fails after a further submission: the first
    chunk of a response has cleared the loading flag, a second message is
    submitted, the next chunk of the response clears the flag again and a
    third message is submitted; then the request of the second message
    fails.  The rollback removes the last message, which is the third: the
    message whose request failed stays in the list, the third, whose
    request is still out, is gone, and the input holds the second text. *)
Theorem rollback_removes_other_message :
  let before := run Demo.JSON_parse Demo.marked_parse start first_chunk in
  let sent := run Demo.JSON_parse Demo.marked_parse before second_pending in
  let after := run Demo.JSON_parse Demo.marked_parse sent third_then_failure in
  texts before =
    [(ChatMessageBubble.user, "a"); (ChatMessageBubble.assistant, "x")] ∧
  calls sent !! 1 = Some (fetching "b") ∧
  isLoading (window sent) = false ∧
  calls after !! 1 = Some failed ∧
  calls after !! 2 = Some (fetching "c") ∧
  texts after =
    [(ChatMessageBubble.user, "a"); (ChatMessageBubble.assistant, "xy");
     (ChatMessageBubble.user, "b")] ∧
  input (window after) = "b" ∧
  isLoading (window after) = false.
Proof. vm_compute. done. Qed.

End Submission.

(** ** The streamed response accumulator *)

Module Accumulator.
Import ChatWindow.
Import AccumulatorDefs.

Lemma append_cons x (a b : string) : String x a +:+ b = String x (a +:+ b).
Proof. reflexivity. Qed.

Lemma append_assoc (a b c : string) : (a +:+ b) +:+ c = a +:+ (b +:+ c).
Proof. induction a as [|x a IH]; [done|]. by rewrite !append_cons, IH. Qed.

Lemma append_nil_r (a : string) : a +:+ "" = a.
Proof. induction a as [|x a IH]; [done|]. by rewrite append_cons, IH. Qed.

Lemma accumulate_frame s o :
  messageValue (accumulate s o) = messageValue s ∧
  messageIndex (accumulate s o) = messageIndex s.
Proof.
  unfold accumulate.
  by destruct (Parsed.tok o), (Parsed.run_id o), (Parsed.sources o).
Qed.

Lemma foldl_accumulate_frame objs s :
  messageValue (foldl accumulate s objs) = messageValue s ∧
  messageIndex (foldl accumulate s objs) = messageIndex s.
Proof.
  revert s. induction objs as [|o objs IH]; intros s; simpl; [done|].
  destruct (IH (accumulate s o)) as [-> ->]. apply accumulate_frame.
Qed.

(** The buffer grows by the tokens, in order, whatever else the objects
    carry. *)
Lemma foldl_accumulate_tok objs s :
  accumulatedMessage (foldl accumulate s objs)
  = accumulatedMessage s +:+ tok_concat objs.
Proof.
  revert s. induction objs as [|o objs IH]; intros s; simpl.
  - by rewrite append_nil_r.
  - rewrite IH. unfold accumulate, tok_concat. simpl.
    destruct (Parsed.tok o) as [t|]; simpl; [by rewrite append_assoc|].
    by destruct (Parsed.run_id o), (Parsed.sources o).
Qed.

Lemma last_omap_cons {A B} (f : A → option B) o l :
  last (omap f (o :: l))
  = match last (omap f l) with Some y => Some y | None => f o end.
Proof.
  change (omap f (o :: l))
    with (match f o with Some y => y :: omap f l | None => omap f l end).
  destruct (f o); [apply last_cons|]. by destruct (last (omap f l)).
Qed.

Lemma accumulate_ids s o :
  one_shape o →
  runId (accumulate s o) = from_option Some (runId s) (Parsed.run_id o) ∧
  sources (accumulate s o) = from_option Some (sources s) (Parsed.sources o).
Proof.
  unfold one_shape, accumulate.
  by destruct (Parsed.tok o), (Parsed.run_id o), (Parsed.sources o).
Qed.

(** Under the protocol, the run id and the sources kept are the last ones
    received. *)
Lemma foldl_accumulate_ids objs s :
  Forall one_shape objs →
  runId (foldl accumulate s objs) = from_option Some (runId s) (last_run_id objs) ∧
  sources (foldl accumulate s objs)
  = from_option Some (sources s) (last_sources objs).
Proof.
  intros Hall. revert s.
  induction Hall as [|o objs Ho Hall IH]; intros s; [done|].
  change (foldl accumulate s (o :: objs))
    with (foldl accumulate (accumulate s o) objs).
  destruct (IH (accumulate s o)) as [-> ->].
  destruct (accumulate_ids s o Ho) as [-> ->].
  unfold last_run_id, last_sources. rewrite !last_omap_cons.
  split.
  - by destruct (last (omap Parsed.run_id objs)).
  - by destruct (last (omap Parsed.sources objs)).
Qed.

Lemma foldl_accumulate_with_index objs s i :
  foldl accumulate (with_index s i) objs
  = with_index (foldl accumulate s objs) i.
Proof.
  revert s. induction objs as [|o objs IH]; intros s; simpl; [done|].
  rewrite <- IH. f_equal. unfold accumulate, with_index; simpl.
  by destruct (Parsed.tok o), (Parsed.run_id o), (Parsed.sources o).
Qed.

Lemma overwrite_overwrite c1 s1 c2 s2 m :
  overwrite c2 s2 (overwrite c1 s1 m) = overwrite c2 s2 m.
Proof. done. Qed.

Section Libraries.

Variable JSON_parse : string -> option Parsed.t.
Variable marked_parse : string -> string.

Local Abbreviation accumulate_lines := (accumulate_lines JSON_parse).
Local Abbreviation processText := (processText JSON_parse marked_parse).
Local Abbreviation read_chunks := (read_chunks JSON_parse marked_parse).
Local Abbreviation step := (step JSON_parse marked_parse).
Local Abbreviation run := (run JSON_parse marked_parse).
Local Abbreviation parse_chunks := (parse_chunks JSON_parse).
Local Abbreviation rendered := (rendered marked_parse).

Lemma accumulate_lines_mapM lines s :
  accumulate_lines s lines = foldl accumulate s <$> mapM JSON_parse lines.
Proof.
  revert s. induction lines as [|l lines IH]; intros s; simpl; [done|].
  destruct (JSON_parse l) as [o|]; simpl; [|done].
  rewrite IH. by destruct (mapM JSON_parse lines).
Qed.

Lemma mapM_app_Some (l1 l2 : list string) k :
  mapM JSON_parse (l1 ++ l2) = Some k →
  ∃ k1 k2, k = k1 ++ k2 ∧ mapM JSON_parse l1 = Some k1 ∧
           mapM JSON_parse l2 = Some k2.
Proof.
  intros H. apply mapM_Some in H.
  apply Forall2_app_inv_l in H as (k1 & k2 & H1 & H2 & ->).
  exists k1, k2. split; [done|]. split; by apply mapM_Some.
Qed.

Lemma parse_chunks_cons c rest objs :
  parse_chunks (c :: rest) = Some objs →
  ∃ o1 o2, objs = o1 ++ o2 ∧ mapM JSON_parse (lines_of c) = Some o1 ∧
           parse_chunks rest = Some o2.
Proof. apply mapM_app_Some. Qed.

(** The first chunk of a response appends the slot and records its index. *)
Lemma processText_first s st chunk rnd objs :
  messageIndex s = None →
  mapM JSON_parse (lines_of chunk) = Some objs →
  processText s st (value chunk) rnd =
  Some (with_index (foldl accumulate s objs) (length (messages st)),
        with_messages st
          (messages st ++
             [assistantMessage rnd (rendered (foldl accumulate s objs))
                (foldl accumulate s objs)])).
Proof.
  intros Hi Hp. unfold processText. fold (lines_of chunk).
  rewrite accumulate_lines_mapM, Hp. simpl. unfold upsert.
  destruct (foldl_accumulate_frame objs s) as [_ ->]. by rewrite Hi.
Qed.

(** A later chunk replaces the content, run id and sources of that slot. *)
Lemma processText_later s st chunk rnd objs i m :
  messageIndex s = Some i →
  messages st !! i = Some m →
  mapM JSON_parse (lines_of chunk) = Some objs →
  processText s st (value chunk) rnd =
  Some (foldl accumulate s objs,
        with_messages st
          (<[i := overwrite (rendered (foldl accumulate s objs))
                    (foldl accumulate s objs) m]> (messages st))).
Proof.
  intros Hi Hm Hp. unfold processText. fold (lines_of chunk).
  rewrite accumulate_lines_mapM, Hp. simpl. unfold upsert.
  destruct (foldl_accumulate_frame objs s) as [_ ->]. by rewrite Hi, Hm.
Qed.

Lemma read_chunks_cons s st c r rest :
  read_chunks s st ((c, r) :: rest) =
  match processText s st (value c) r with
  | Some (s', st') => read_chunks s' st' rest
  | None => None
  end.
Proof. reflexivity. Qed.

Lemma read_chunks_later rest : ∀ c r s st objs i m,
  messageIndex s = Some i →
  messages st !! i = Some m →
  parse_chunks (c :: rest.*1) = Some objs →
  read_chunks s st ((c, r) :: rest) =
  Some (foldl accumulate s objs,
        with_messages st
          (<[i := overwrite (rendered (foldl accumulate s objs))
                    (foldl accumulate s objs) m]> (messages st))).
Proof.
  induction rest as [|[c' r'] rest IH]; intros c r s st objs i m Hi Hm Hp.
  - apply parse_chunks_cons in Hp as (o1 & o2 & -> & H1 & H2).
    injection H2 as <-. rewrite app_nil_r, read_chunks_cons.
    by rewrite (processText_later _ _ _ _ _ _ _ Hi Hm H1).
  - apply parse_chunks_cons in Hp as (o1 & o2 & -> & H1 & H2).
    rewrite read_chunks_cons.
    rewrite (processText_later _ _ _ _ _ _ _ Hi Hm H1).
    rewrite (IH c' r' _ _ o2 i (overwrite (rendered (foldl accumulate s o1))
                                  (foldl accumulate s o1) m)).
    + rewrite foldl_app. unfold with_messages; simpl.
      by rewrite list_insert_insert_eq.
    + by destruct (foldl_accumulate_frame o1 s) as [_ ->].
    + simpl. apply list_lookup_insert_eq. by eapply lookup_lt_Some.
    + done.
Qed.

(** A response read from its first chunk on, on its own: one slot, after
    the messages that were there, holding the whole buffer reformatted. *)
Lemma read_chunks_fresh rest c r s st objs :
  messageIndex s = None →
  parse_chunks (c :: rest.*1) = Some objs →
  read_chunks s st ((c, r) :: rest) =
  Some (with_index (foldl accumulate s objs) (length (messages st)),
        with_messages st
          (messages st ++
             [assistantMessage r (rendered (foldl accumulate s objs))
                (foldl accumulate s objs)])).
Proof.
  intros Hi Hp. destruct rest as [|[c' r'] rest].
  - apply parse_chunks_cons in Hp as (o1 & o2 & -> & H1 & H2).
    injection H2 as <-. rewrite app_nil_r, read_chunks_cons.
    by rewrite (processText_first _ _ _ _ _ Hi H1).
  - apply parse_chunks_cons in Hp as (o1 & o2 & -> & H1 & H2).
    rewrite read_chunks_cons.
    rewrite (processText_first _ _ _ _ _ Hi H1).
    rewrite (read_chunks_later rest c' r' _ _ o2 (length (messages st))
               (assistantMessage r (rendered (foldl accumulate s o1))
                  (foldl accumulate s o1))); [|done| |done].
    + rewrite foldl_app, !foldl_accumulate_with_index.
      unfold with_messages; simpl.
      rewrite insert_app_r_alt, Nat.sub_diag by lia. done.
    + simpl. by rewrite lookup_app_r, Nat.sub_diag by lia.
Qed.

Lemma from_option_Some_None {A} (o : option A) : from_option Some None o = o.
Proof. by destruct o. Qed.

(** A response read on its own from the start is read to the end of the
    chunks when all their lines decode. *)
Lemma read_chunks_open mv st chunks objs :
  parse_chunks chunks.*1 = Some objs →
  ∃ s' st',
    read_chunks (open_stream mv) st chunks = Some (s', st') ∧
    accumulatedMessage s' = tok_concat objs ∧
    messageValue s' = mv ∧
    chatHistory st' = chatHistory st ∧
    (chunks ≠ [] → isLoading st' = false).
Proof.
  intros Hp. destruct chunks as [|[c r] rest].
  - injection Hp as <-. by exists (open_stream mv), st.
  - rewrite (read_chunks_fresh rest c r (open_stream mv) st objs eq_refl Hp).
    eexists _, _. split; [reflexivity|]. simpl.
    rewrite foldl_accumulate_tok.
    by destruct (foldl_accumulate_frame objs (open_stream mv)) as [-> _].
Qed.

(** C5: when every line of every chunk decodes to an object with exactly
    one of [tok], [run_id] and [sources], reading the chunks of a response
    leaves in the buffer the concatenation, in arrival order, of the tokens
    received, and keeps the last run id and the last source list received,
    or none if none was. *)
Theorem accumulator_follows_stream (mv : string) (st : State)
    (chunks : list (string * string)) (objs : list Parsed.t) :
  parse_chunks chunks.*1 = Some objs →
  Forall one_shape objs →
  ∃ s' st',
    read_chunks (open_stream mv) st chunks = Some (s', st') ∧
    accumulatedMessage s' = tok_concat objs ∧
    runId s' = last_run_id objs ∧
    sources s' = last_sources objs.
Proof.
  intros Hp Hall. destruct chunks as [|[c r] rest].
  - injection Hp as <-. by exists (open_stream mv), st.
  - rewrite (read_chunks_fresh rest c r (open_stream mv) st objs eq_refl Hp).
    eexists _, _. split; [reflexivity|]. simpl.
    rewrite foldl_accumulate_tok.
    destruct (foldl_accumulate_ids objs (open_stream mv) Hall) as [-> ->].
    simpl. by rewrite !from_option_Some_None.
Qed.

(** After every chunk of a response that is read with nothing else
    happening in between, the message list is the one from before the
    response followed by one assistant message, created by the first
    chunk, whose content is the whole buffer passed through [marked.parse]
    and whose run id and sources are the ones kept. *)
Lemma one_slot_per_response (mv : string) (st : State) (c r : string)
    (rest : list (string * string)) (objs : list Parsed.t) :
  parse_chunks (c :: rest.*1) = Some objs →
  ∃ s' st',
    read_chunks (open_stream mv) st ((c, r) :: rest) = Some (s', st') ∧
    accumulatedMessage s' = tok_concat objs ∧
    messageIndex s' = Some (length (messages st)) ∧
    messages st' =
      messages st ++
        [{| ChatMessageBubble.id := r;
            ChatMessageBubble.content := JS.trim (marked_parse (tok_concat objs));
            ChatMessageBubble.role := ChatMessageBubble.assistant;
            ChatMessageBubble.runId := runId s';
            ChatMessageBubble.sources := sources s' |}].
Proof.
  intros Hp.
  rewrite (read_chunks_fresh rest c r (open_stream mv) st objs eq_refl Hp).
  eexists _, _. split; [reflexivity|]. simpl.
  unfold assistantMessage, AccumulatorDefs.rendered.
  by rewrite foldl_accumulate_tok.
Qed.

Lemma run_reads chunks : ∀ sys k s s' st',
  calls sys !! k = Some (streaming s) →
  read_chunks s (window sys) chunks = Some (s', st') →
  run sys (reads k chunks) =
  {| window := st'; calls := <[k := streaming s']> (calls sys);
     requests := requests sys |}.
Proof.
  induction chunks as [|[c r] rest IH]; intros sys k s s' st' Hk Hr.
  - injection Hr as <- <-. simpl. rewrite list_insert_id by done.
    by destruct sys.
  - rewrite read_chunks_cons in Hr.
    destruct (processText s (window sys) (value c) r) as [[s1 st1]|] eqn:Hp;
      [|done].
    change (run sys (reads k ((c, r) :: rest)))
      with (run (step sys (read k (value c) r)) (reads k rest)).
    assert (step sys (read k (value c) r) =
            {| window := st1; calls := <[k := streaming s1]> (calls sys);
               requests := requests sys |}) as ->.
    { unfold ChatWindow.step. by rewrite Hk, Hp. }
    rewrite (IH _ k s1 s' st'); simpl.
    + by rewrite list_insert_insert_eq.
    + apply list_lookup_insert_eq. by eapply lookup_lt_Some.
    + done.
Qed.

(** C7: a response read to its end appends one exchange to the history,
    the text submitted and the buffer at the end, and a submission made
    after that sends that history in its body. *)
Theorem exchange_recorded (sys : System) (message : option string)
    (rnd cid : string) (chunks : list (string * string))
    (objs : list Parsed.t) (next rnd' cid' : string) :
  isLoading (window sys) = false →
  default (input (window sys)) message ≠ "" →
  parse_chunks chunks.*1 = Some objs →
  let mv := default (input (window sys)) message in
  let k := length (calls sys) in
  let sys1 :=
    run sys (submit message rnd cid :: fetch_resolves k true ::
             reads k chunks ++ [read k done ""]) in
  let entry := {| human := mv; ai := tok_concat objs |} in
  chatHistory (window sys1) = chatHistory (window sys) ++ [entry] ∧
  calls sys1 = calls sys ++ [finished] ∧
  (chunks ≠ [] → next ≠ "" →
   requests (step sys1 (submit (Some next) rnd' cid')) =
   requests sys1 ++
     [{| message := next; history := chatHistory (window sys) ++ [entry];
         conversation_id := cid' |}]).
Proof.
  intros Hl Hne Hp mv k sys1 entry.
  pose (w1 := {| messages := messages (window sys) ++ [userMessage rnd mv];
                 input := ""; isLoading := true;
                 chatHistory := chatHistory (window sys); grow := true;
                 unmounted := unmounted (window sys) |}).
  pose (rq := requests sys ++
                [{| message := mv; history := chatHistory (window sys);
                    conversation_id := cid |}]).
  destruct (read_chunks_open mv w1 chunks objs Hp)
    as (s' & st' & Hr & Hacc & Hmv & Hh & Hld).
  assert (sys1 =
    {| window :=
         {| messages := messages st'; input := input st';
            isLoading := isLoading st';
            chatHistory := chatHistory (window sys) ++ [entry];
            grow := grow st';
            unmounted := unmounted st' |};
       calls := calls sys ++ [finished];
       requests := rq |}) as H1.
  { unfold sys1.
    change (run sys (submit message rnd cid :: fetch_resolves k true ::
                     reads k chunks ++ [read k done ""]))
      with (run (step (step sys (submit message rnd cid))
                   (fetch_resolves k true))
              (reads k chunks ++ [read k done ""])).
    assert (step (step sys (submit message rnd cid)) (fetch_resolves k true) =
            {| window := w1;
               calls := calls sys ++ [streaming (open_stream mv)];
               requests := rq |}) as ->.
    { unfold ChatWindow.step at 2.
      rewrite (Submission.sendMessage_sends _ _ _ _ Hl Hne).
      unfold ChatWindow.step. simpl.
      subst k. rewrite lookup_app_r, Nat.sub_diag by lia. simpl.
      rewrite insert_app_r_alt, Nat.sub_diag by lia. done. }
    unfold ChatWindow.run. rewrite foldl_app.
    fold (run {| window := w1;
                 calls := calls sys ++ [streaming (open_stream mv)];
                 requests := rq |} (reads k chunks)).
    rewrite (run_reads chunks _ k (open_stream mv) s' st'); simpl.
    - subst k. rewrite !insert_app_r_alt, !Nat.sub_diag by lia. simpl.
      rewrite lookup_app_r, Nat.sub_diag by lia. simpl.
      unfold entry. by rewrite Hacc, Hmv, Hh.
    - subst k. by rewrite lookup_app_r, Nat.sub_diag by lia.
    - done. }
  rewrite H1. simpl. split; [done|]. split; [done|].
  intros Hc Hn. unfold sendMessage. simpl. rewrite (Hld Hc). simpl.
  by rewrite bool_decide_eq_false_2.
Qed.

End Libraries.

Lemma two_chunks_parse :
  parse_chunks Demo.JSON_parse two_chunks.*1 = Some two_chunks_objs.
Proof. vm_compute. reflexivity. Qed.

Lemma accumulator_follows_stream_witness :
  ∃ s' st',
    read_chunks Demo.JSON_parse Demo.marked_parse (open_stream "hi") initial
      two_chunks = Some (s', st') ∧
    accumulatedMessage s' = "Hello" ∧
    runId s' = Some "R1" ∧
    sources s' = Some [].
Proof.
  apply (accumulator_follows_stream Demo.JSON_parse Demo.marked_parse "hi"
           initial two_chunks two_chunks_objs).
  - vm_compute. reflexivity.
  - repeat constructor.
Defined.

Lemma one_slot_per_response_witness :
  ∃ s' st',
    read_chunks Demo.JSON_parse Demo.marked_parse (open_stream "hi") initial
      two_chunks = Some (s', st') ∧
    accumulatedMessage s' = "Hello" ∧
    messageIndex s' = Some 0 ∧
    messages st' =
      [{| ChatMessageBubble.id := "0.5";
          ChatMessageBubble.content := "Hello";
          ChatMessageBubble.role := ChatMessageBubble.assistant;
          ChatMessageBubble.runId := runId s';
          ChatMessageBubble.sources := sources s' |}].
Proof.
  apply (one_slot_per_response Demo.JSON_parse Demo.marked_parse "hi" initial
           (Demo.line_of "tok" "Hel" +:+ Demo.newline
              +:+ Demo.line_of "run_id" "R1" +:+ Demo.newline)
           "0.5"
           [(Demo.line_of "tok" "lo" +:+ Demo.newline +:+ Demo.no_sources, "0.6")]
           two_chunks_objs).
  vm_compute. reflexivity.
Defined.

Lemma exchange_recorded_witness :
  let sys1 :=
    run Demo.JSON_parse Demo.marked_parse start
      (submit (Some "hi") "0.1" "c1" :: fetch_resolves 0 true ::
       reads 0 two_chunks ++ [read 0 done ""]) in
  chatHistory (window sys1) = [{| human := "hi"; ai := "Hello" |}] ∧
  calls sys1 = [finished] ∧
  requests (step Demo.JSON_parse Demo.marked_parse sys1
              (submit (Some "more") "0.7" "c2")) =
  requests sys1 ++
    [{| message := "more"; history := [{| human := "hi"; ai := "Hello" |}];
        conversation_id := "c2" |}].
Proof.
  destruct (exchange_recorded Demo.JSON_parse Demo.marked_parse start
              (Some "hi") "0.1" "c1" two_chunks two_chunks_objs
              "more" "0.7" "c2") as (H1 & H2 & H3).
  - reflexivity.
  - discriminate.
  - vm_compute. reflexivity.
  - split; [exact H1|]. split; [exact H2|]. apply H3; discriminate.
Defined.

(** C6, at a later chunk of a response whose slot is gone: the slot that
    the first chunk of the response to the second message appended, at
    index 4, was removed by the rollback of the third request, which
    failed.  A fourth message is submitted and takes index 4; the next
    chunk of the response then writes the whole buffer over the content of
    that user message, and no assistant message holds the response. *)
Theorem later_chunk_overwrites_other_message :
  let sys := step Demo.JSON_parse Demo.marked_parse WindowTraceDefs.slot_gone
               (submit (Some "d") "0.7" "c") in
  let sys' := step Demo.JSON_parse Demo.marked_parse sys
                (read 1 (value (Demo.line_of "tok" "w")) "0.8") in
  calls sys !! 1 = Some (streaming WindowTraceDefs.slot_gone_stream) ∧
  SubmissionDefs.texts sys =
    [(ChatMessageBubble.user, "a"); (ChatMessageBubble.assistant, "xy");
     (ChatMessageBubble.user, "b"); (ChatMessageBubble.user, "c");
     (ChatMessageBubble.user, "d")] ∧
  calls sys' !! 1 = Some (streaming WindowTraceDefs.slot_gone_stream_next) ∧
  SubmissionDefs.texts sys' =
    [(ChatMessageBubble.user, "a"); (ChatMessageBubble.assistant, "xy");
     (ChatMessageBubble.user, "b"); (ChatMessageBubble.user, "c");
     (ChatMessageBubble.user, "zw")] ∧
  unmounted (window sys') = false.
Proof. vm_compute. done. Qed.

End Accumulator.

(** ** The order of the filtered sources and the index map *)

Module Dedup.
Import ChatMessageBubble.
Import CitationsDefs.
Import DedupDefs.
Import Citations.

Lemma firsts_snoc pre s : firsts (pre ++ [s]) = keep_first (firsts pre) s.
Proof. unfold firsts. by rewrite foldl_app. Qed.

Lemma firsts_urls l u : u ∈ url <$> firsts l ↔ u ∈ url <$> l.
Proof.
  induction l as [|s l IH] using rev_ind; [done|].
  rewrite firsts_snoc, fmap_app, elem_of_app. unfold keep_first.
  case_bool_decide as Hin.
  - rewrite IH. simpl. rewrite list_elem_of_singleton. split; [tauto|].
    intros [?| ->]; [done|]. by apply IH.
  - rewrite fmap_app, elem_of_app, IH. done.
Qed.

Lemma first_index_None u l : first_index u l = None ↔ u ∉ url <$> l.
Proof.
  induction l as [|s l IH]; simpl.
  - split; [|done]. intros _ H. by apply elem_of_nil in H.
  - rewrite elem_of_cons. case_bool_decide as E.
    + split; [done|]. intros H. exfalso. apply H. by left.
    + destruct (first_index u l) eqn:F; simpl.
      * split; [done|]. intros H. exfalso.
        assert (u ∈ url <$> l) as Hin.
        { destruct (decide (u ∈ url <$> l)) as [|Hn]; [done|].
          apply IH in Hn. done. }
        apply H. by right.
      * split; [|done]. intros _ [->|Hin]; [done|]. by apply IH in Hin.
Qed.

Lemma firsts_length l : length (firsts l) ≤ length l.
Proof.
  induction l as [|s l IH] using rev_ind; [done|].
  rewrite firsts_snoc, length_app. unfold keep_first. simpl.
  case_bool_decide; [lia|]. rewrite length_app. simpl. lia.
Qed.

Lemma firsts_NoDup_id l : NoDup (url <$> l) → firsts l = l.
Proof.
  induction l as [|s l IH] using rev_ind; [done|].
  rewrite fmap_app. intros [Hl [Hdis _]]%NoDup_app.
  rewrite firsts_snoc, (IH Hl). unfold keep_first.
  rewrite bool_decide_eq_false_2; [done|].
  intros Hin. apply (Hdis _ Hin). simpl. by left.
Qed.

Lemma firsts_full_NoDup l : length (firsts l) = length l → NoDup (url <$> l).
Proof.
  induction l as [|s l IH] using rev_ind; [intros _; constructor|].
  rewrite firsts_snoc, length_app. unfold keep_first. simpl.
  pose proof (firsts_length l) as Hle.
  case_bool_decide as Hin; [lia|].
  rewrite length_app. simpl. intros Hlen.
  rewrite fmap_app. apply NoDup_app. split; [apply IH; lia|]. split.
  - intros u Hu Hu'. simpl in Hu'. apply list_elem_of_singleton in Hu'. subst u.
    apply Hin. by apply firsts_urls.
  - apply NoDup_singleton.
Qed.

Lemma order_inv_step pre st s :
  filter_inv pre st → order_inv pre st →
  order_inv (pre ++ [s]) (filter_step st (length pre) s).
Proof.
  intros [Hu _ _ _ _ _] [Hfl Hix]. unfold filter_step. rewrite Hu.
  assert (∀ k s', (pre ++ [s]) !! k = Some s' → k ≠ length pre →
            pre !! k = Some s' ∧ take k (pre ++ [s]) = take k pre) as Hold.
  { intros k s' Hk Hne.
    assert (k < length pre).
    { apply lookup_lt_Some in Hk. rewrite length_app in Hk. simpl in Hk. lia. }
    rewrite lookup_app_l in Hk by done. split; [done|].
    rewrite take_app_le by lia. done. }
  assert (∀ k s', pre !! k = Some s' →
            first_index (url s') (pre ++ [s]) = first_index (url s') pre) as Hfi.
  { intros k s' Hk. rewrite first_index_snoc.
    by destruct (Citations.first_index_is_Some _ _ _ Hk) as (j & -> & _). }
  destruct (first_index (url s) pre) as [j|] eqn:Hj; split; simpl.
  - rewrite firsts_snoc, Hfl. unfold keep_first.
    rewrite bool_decide_eq_true_2; [done|].
    apply firsts_urls. destruct (decide (url s ∈ url <$> pre)) as [|Hn]; [done|].
    apply first_index_None in Hn. congruence.
  - intros k s' Hk Hfirst.
    destruct (decide (k = length pre)) as [->|Hne].
    + rewrite lookup_app_r, Nat.sub_diag in Hk by lia. injection Hk as <-.
      rewrite first_index_snoc, Hj in Hfirst. injection Hfirst as ->.
      apply Citations.first_index_lt in Hj. lia.
    + destruct (Hold _ _ Hk Hne) as [Hk' ->].
      rewrite lookup_insert_ne by done. apply (Hix _ _ Hk').
      by rewrite <- (Hfi _ _ Hk').
  - rewrite firsts_snoc, Hfl. unfold keep_first.
    rewrite bool_decide_eq_false_2; [done|].
    rewrite firsts_urls. by apply first_index_None.
  - intros k s' Hk Hfirst.
    destruct (decide (k = length pre)) as [->|Hne].
    + rewrite lookup_insert_eq, Hfl, take_app_length. done.
    + destruct (Hold _ _ Hk Hne) as [Hk' ->].
      rewrite lookup_insert_ne by done. apply (Hix _ _ Hk').
      by rewrite <- (Hfi _ _ Hk').
Qed.

Lemma order_inv_loop l pre st :
  filter_inv pre st → order_inv pre st →
  order_inv (pre ++ l) (filter_loop st (length pre) l).
Proof.
  revert pre st. induction l as [|s l IH]; intros pre st Hinv Hord; simpl.
  - by rewrite app_nil_r.
  - replace (pre ++ s :: l) with ((pre ++ [s]) ++ l) by by rewrite <- app_assoc.
    replace (S (length pre)) with (length (pre ++ [s]))
      by (rewrite length_app; simpl; lia).
    apply IH; [by apply Citations.filter_inv_step|by apply order_inv_step].
Qed.

Lemma filterSources_order_inv l : order_inv l (filterSources l).
Proof.
  apply (order_inv_loop l [] filter_init Citations.filter_inv_init).
  by split.
Qed.

(** X1: the filtered list is the source list with every later source of
    an already seen URL dropped, the order kept: it holds each URL of the
    source list once. *)
Theorem filtered_is_first_occurrences (l : list Source) :
  filtered (filterSources l) = firsts l ∧
  NoDup (url <$> filtered (filterSources l)) ∧
  (∀ u, u ∈ url <$> filtered (filterSources l) ↔ u ∈ url <$> l) ∧
  length (filtered (filterSources l)) ≤ length l.
Proof.
  destruct (filterSources_order_inv l) as [Hf _].
  destruct (Citations.filterSources_collapses l) as (Hnd & _ & _).
  rewrite Hf in *. split; [done|]. split; [done|]. split.
  - intros u. apply firsts_urls.
  - apply firsts_length.
Qed.

(** X2: the index map has an entry for exactly the indices of the source
    list, and no entry is larger than its index. *)
Theorem indexMap_domain (l : list Source) (k : nat) :
  (is_Some (indexMap (filterSources l) !! k) ↔ k < length l) ∧
  (∀ p, indexMap (filterSources l) !! k = Some p → p ≤ k).
Proof.
  destruct (Citations.filterSources_inv l) as [_ Hf Hd Hdom _ _].
  destruct (filterSources_order_inv l) as [_ Hix].
  destruct (decide (k < length l)) as [Hlt|Hge].
  - destruct (lookup_lt_is_Some_2 l k Hlt) as [s Hs].
    destruct (Citations.first_index_is_Some _ _ _ Hs) as (j & Hj & Hjk).
    destruct (decide (j = k)) as [->|Hne].
    + rewrite (Hix _ _ Hs Hj). split; [by split; [|eauto]|].
      intros p [= <-]. pose proof (firsts_length (take k l)) as H.
      rewrite length_take in H. lia.
    + rewrite (Hd _ _ _ Hs Hj Hne). split; [by split; [|eauto]|].
      intros p [= <-]. done.
  - rewrite Hdom by lia. split; [|done]. split; [by intros [? ?]|lia].
Qed.

Lemma distinct_filtered (l : list Source) :
  NoDup (url <$> l) → filtered (filterSources l) = l.
Proof.
  intros Hnd. destruct (filterSources_order_inv l) as [Hf _].
  by rewrite Hf, firsts_NoDup_id.
Qed.

Lemma distinct_index (l : list Source) (k : nat) :
  NoDup (url <$> l) → k < length l →
  indexMap (filterSources l) !! k = Some k.
Proof.
  intros Hnd Hk. destruct (filterSources_order_inv l) as [_ Hix].
  destruct (lookup_lt_is_Some_2 l k Hk) as [s Hs].
  destruct (Citations.first_index_is_Some _ _ _ Hs) as (j & Hj & Hjk).
  assert (j = k) as ->.
  { destruct (Citations.first_index_lookup _ _ _ Hj) as (s' & Hs' & Hurl).
    eapply NoDup_lookup; [exact Hnd| |].
    - rewrite list_lookup_fmap, Hs'. simpl. by rewrite Hurl.
    - by rewrite list_lookup_fmap, Hs. }
  rewrite (Hix _ _ Hs Hj). f_equal.
  rewrite firsts_NoDup_id.
  - rewrite length_take. lia.
  - rewrite <- (take_drop k l), fmap_app in Hnd. by apply NoDup_app in Hnd as [? _].
Qed.

(** X3: when the URLs of the sources are pairwise different, nothing is
    dropped and the index map is the identity on the indices of the
    sources. *)
Theorem distinct_sources_untouched (l : list Source) :
  NoDup (url <$> l) →
  filtered (filterSources l) = l ∧
  ∀ k, k < length l → indexMap (filterSources l) !! k = Some k.
Proof.
  intros Hnd. split; [by apply distinct_filtered|].
  intros k Hk. by apply distinct_index.
Qed.

Lemma distinct_sources_untouched_witness :
  filtered (filterSources three_distinct) = three_distinct ∧
  ∀ k, k < length three_distinct →
       indexMap (filterSources three_distinct) !! k = Some k.
Proof.
  apply (distinct_sources_untouched three_distinct).
  apply (bool_decide_eq_true_1 (NoDup (url <$> three_distinct))).
  vm_compute. reflexivity.
Defined.

(** X4: what the index map holds for the source at index [k]: for the
    first source with its URL, the number of URLs kept before it, which is
    the place of that very source in the filtered list; for a later source
    with that URL, the index the first one has in the source list. *)
Theorem indexMap_entry (l : list Source) (k : nat) (s : Source) :
  l !! k = Some s →
  ∃ j, first_index (url s) l = Some j ∧ j ≤ k ∧
       if decide (j = k) then
         indexMap (filterSources l) !! k = Some (length (firsts (take k l))) ∧
         filtered (filterSources l) !! length (firsts (take k l)) = Some s
       else indexMap (filterSources l) !! k = Some j.
Proof.
  intros Hs. destruct (first_index_is_Some _ _ _ Hs) as (j & Hj & Hjk).
  exists j. split; [done|]. split; [done|].
  destruct (filterSources_inv l) as [_ Hf Hd _ _ _].
  destruct (filterSources_order_inv l) as [_ Hix].
  destruct (decide (j = k)) as [->|Hne]; [|by eapply Hd].
  pose proof (Hix _ _ Hs Hj) as Hp. split; [done|].
  destruct (Hf _ _ Hs Hj) as (p & Hp' & Hfp). congruence.
Qed.

Lemma indexMap_entry_witness :
  ∃ j, first_index (url (Demo.src "b")) five = Some j ∧ j ≤ 4 ∧
       if decide (j = 4) then
         indexMap (filterSources five) !! 4 = Some (length (firsts (take 4 five))) ∧
         filtered (filterSources five) !! length (firsts (take 4 five))
         = Some (Demo.src "b")
       else indexMap (filterSources five) !! 4 = Some j.
Proof. apply (indexMap_entry five 4 (Demo.src "b")). reflexivity. Defined.

(** X5: a marker with the index of a later source of a URL resolves to the
    filtered entry with that URL exactly when no URL occurs twice among the
    sources before the first source with that URL. *)
Theorem duplicate_resolves_right_iff (l : list Source) (k j : nat) (s : Source) :
  l !! k = Some s → first_index (url s) l = Some j → j ≠ k →
  indexMap (filterSources l) !! k = Some j ∧
  ((∃ s', filtered (filterSources l) !! j = Some s' ∧ url s' = url s)
   ↔ NoDup (url <$> take j l)).
Proof.
  intros Hs Hj Hne.
  destruct (filterSources_inv l) as [_ Hf Hd _ Hnd _].
  destruct (filterSources_order_inv l) as [Hfl Hix].
  split; [by eapply Hd|].
  destruct (first_index_lookup _ _ _ Hj) as (sj & Hsj & Hurl).
  rewrite <- Hurl in Hj.
  pose proof (Hix _ _ Hsj Hj) as Hp.
  destruct (Hf _ _ Hsj Hj) as (p & Hp' & Hfp).
  assert (p = length (firsts (take j l))) as -> by congruence.
  assert (j < length l) as Hlt by by eapply lookup_lt_Some.
  split.
  - intros (s' & Hs' & Hurl').
    assert (j = length (firsts (take j l))) as Heq.
    { eapply NoDup_lookup; [exact Hnd| |].
      - by rewrite list_lookup_fmap, Hs'.
      - rewrite list_lookup_fmap, Hfp. simpl. congruence. }
    apply firsts_full_NoDup. rewrite <- Heq, length_take. lia.
  - intros Hnd'. exists sj. split; [|done].
    rewrite (firsts_NoDup_id _ Hnd'), length_take in Hfp.
    by replace (j `min` length l) with j in Hfp by lia.
Qed.

Lemma duplicate_resolves_right_iff_witness :
  indexMap (filterSources five) !! 4 = Some 2 ∧
  ((∃ s', filtered (filterSources five) !! 2 = Some s' ∧
          url s' = url (Demo.src "b"))
   ↔ NoDup (url <$> take 2 five)).
Proof.
  apply (duplicate_resolves_right_iff five 4 2 (Demo.src "b"));
    [reflexivity|reflexivity|lia].
Defined.

(** X6: with at most ten sources, all of different URLs, a marker is
    cited exactly when its number is the index of a source, and it then
    cites that source. *)
Theorem distinct_sources_resolve (l : list Source) (k : nat) :
  NoDup (url <$> l) →
  length l ≤ 10 →
  (resolve (indexMap (filterSources l)) k < length (filtered (filterSources l))
   ↔ k < length l) ∧
  (k < length l →
   resolve (indexMap (filterSources l)) k = k ∧
   filtered (filterSources l) !! k = l !! k).
Proof.
  intros Hnd Hlen. rewrite (distinct_filtered l Hnd). unfold resolve.
  destruct (decide (k < length l)) as [Hk|Hk].
  - rewrite (distinct_index l k Hnd Hk). simpl. by repeat split.
  - rewrite (filterSources_unmapped l k) by lia. simpl.
    split; [split; lia|done].
Qed.

Lemma distinct_sources_resolve_witness :
  (resolve (indexMap (filterSources three_distinct)) 2
     < length (filtered (filterSources three_distinct))
   ↔ 2 < length three_distinct) ∧
  (2 < length three_distinct →
   resolve (indexMap (filterSources three_distinct)) 2 = 2 ∧
   filtered (filterSources three_distinct) !! 2 = three_distinct !! 2).
Proof.
  apply (distinct_sources_resolve three_distinct 2).
  - apply (bool_decide_eq_true_1 (NoDup (url <$> three_distinct))).
    vm_compute. reflexivity.
  - simpl. lia.
Defined.

End Dedup.

(** ** The citation pattern *)

Module Pattern.
Import ChatMessageBubble.
Import PatternDefs.

Lemma append_nil_l (s : string) : "" +:+ s = s.
Proof. reflexivity. Qed.

Lemma append_length (a b : string) :
  String.length (a +:+ b) = String.length a + String.length b.
Proof.
  induction a as [|x a IH]; [done|].
  rewrite Accumulator.append_cons. simpl. by rewrite IH.
Qed.

Lemma take_append (t r : string) : JS.take_str (String.length t) (t +:+ r) = t.
Proof.
  induction t as [|x t IH]; [by destruct r|].
  rewrite Accumulator.append_cons. simpl. by rewrite IH.
Qed.

Lemma span_digits_sound s ds rest :
  span_digits s = (ds, rest) →
  s = ds +:+ rest ∧ all_digits ds = true ∧
  match rest with String c _ => is_digit c = false | EmptyString => True end.
Proof.
  revert ds rest. induction s as [|c s IH]; intros ds rest; simpl.
  - by intros [= <- <-].
  - destruct (is_digit c) eqn:Hc.
    + destruct (span_digits s) as [ds' rest'] eqn:Hs. intros [= <- <-].
      destruct (IH _ _ eq_refl) as (-> & Hd & Hr).
      rewrite Accumulator.append_cons. simpl. by rewrite Hc, Hd.
    + intros [= <- <-]. by rewrite Hc.
Qed.

Lemma span_digits_complete ds rest :
  all_digits ds = true →
  match rest with String c _ => is_digit c = false | EmptyString => True end →
  span_digits (ds +:+ rest) = (ds, rest).
Proof.
  intros Hd Hr. induction ds as [|c ds IH].
  - rewrite append_nil_l. destruct rest as [|c r]; [done|]. simpl. by rewrite Hr.
  - simpl in Hd. apply andb_true_iff in Hd as [Hc Hd].
    rewrite Accumulator.append_cons. simpl. by rewrite Hc, (IH Hd).
Qed.

Lemma opt_caret_sound s c r :
  opt_caret s = (c, r) → s = c +:+ r ∧ caret_or_empty c.
Proof.
  unfold opt_caret, caret_or_empty.
  destruct s as [|x s]; [intros [= <- <-]; by split; [|left]|].
  destruct (decide (x = "^"%char)) as [->|Hne].
  - intros [= <- <-]. by split; [|right].
  - assert ((match x with
             | "^"%char => ("^", s)
             | _ => ("", String x s)
             end) = ("", String x s)) as ->.
    { destruct x as [[] [] [] [] [] [] [] []]; done. }
    intros [= <- <-]. by split; [|left].
Qed.

Lemma opt_caret_caret r : opt_caret ("^" +:+ r) = ("^", r).
Proof. reflexivity. Qed.

Lemma opt_caret_other r :
  match r with String c _ => c ≠ "^"%char | EmptyString => True end →
  opt_caret r = ("", r).
Proof.
  destruct r as [|x r]; [done|]. intros Hne. unfold opt_caret.
  destruct x as [[] [] [] [] [] [] [] []]; done.
Qed.

(** What the pattern matches at the head of a string is a word of the
    pattern with which the string starts. *)
Lemma match_here_sound (s t g : string) :
  match_here s = Some (t, g) → marker t g ∧ ∃ rest, s = t +:+ rest.
Proof.
  unfold match_here. destruct s as [|x r]; [done|].
  destruct (decide (x = "["%char)) as [->|Hne];
    [|destruct x as [[] [] [] [] [] [] [] []]; done].
  destruct (opt_caret r) as [c1 r1] eqn:H1.
  destruct (span_digits r1) as [ds r2] eqn:H2.
  destruct ds as [|d ds]; [done|].
  destruct (opt_caret r2) as [c2 r3] eqn:H3.
  destruct r3 as [|y r4]; [done|].
  destruct (decide (y = "]"%char)) as [->|Hne];
    [|destruct y as [[] [] [] [] [] [] [] []]; done].
  intros [= <- <-].
  apply opt_caret_sound in H1 as [-> Hc1].
  apply span_digits_sound in H2 as (-> & Hd & _).
  apply opt_caret_sound in H3 as [-> Hc3].
  split.
  + exists c1, c2. by repeat split.
  + exists r4. rewrite <- Accumulator.append_cons.
    change (String "[" (c1 +:+ String d ds +:+ c2 +:+ String "]" r4))
      with ("[" +:+ (c1 +:+ (String d ds +:+ (c2 +:+ ("]" +:+ r4))))).
    by rewrite !Accumulator.append_assoc.
Qed.

(** At the head of a string that starts with a word of the pattern, the
    pattern matches that word. *)
Lemma match_here_complete (t g rest : string) :
  marker t g → match_here (t +:+ rest) = Some (t, g).
Proof.
  intros (c1 & c2 & Hc1 & Hc2 & Hg & Hd & ->).
  rewrite !Accumulator.append_assoc.
  change ("[" +:+ c1 +:+ g +:+ c2 +:+ "]" +:+ rest)
    with (String "[" (c1 +:+ g +:+ c2 +:+ String "]" rest)).
  unfold match_here.
  assert (opt_caret (c2 +:+ String "]" rest) = (c2, String "]" rest)) as H3.
  { destruct Hc2 as [-> | ->]; [|done]. by rewrite append_nil_l. }
  assert (span_digits (g +:+ c2 +:+ String "]" rest)
          = (g, c2 +:+ String "]" rest)) as H2.
  { apply span_digits_complete; [done|]. by destruct Hc2 as [-> | ->]. }
  assert (opt_caret (c1 +:+ g +:+ c2 +:+ String "]" rest)
          = (c1, g +:+ c2 +:+ String "]" rest)) as H1.
  { destruct Hc1 as [-> | ->]; [|done]. rewrite append_nil_l.
    apply opt_caret_other. destruct g as [|d g]; [done|].
    rewrite Accumulator.append_cons. simpl in Hd.
    apply andb_true_iff in Hd as [Hd _]. intros ->. done. }
  rewrite H1, H2. destruct g as [|d g]; [done|]. by rewrite H3.
Qed.

(** X7: the pattern matches at the head of a string exactly when the
    string starts with an opening bracket, an optional caret, one or more
    digits, an optional caret and a closing bracket; the match is that
    word and the group its digits. *)
Theorem match_here_language (s t g : string) :
  match_here s = Some (t, g) ↔ marker t g ∧ ∃ rest, s = t +:+ rest.
Proof.
  split; [apply match_here_sound|].
  intros [Hm [rest ->]]. by apply match_here_complete.
Qed.

Lemma matchAll_from_cons c r pos skip :
  matchAll_from (String c r) pos skip =
  match skip with
  | S k => matchAll_from r (S pos) k
  | O =>
      match match_here (String c r) with
      | Some (t, g) =>
          {| m_index := pos; m_text := t; m_group := g |}
            :: matchAll_from r (S pos) (String.length t - 1)
      | None => matchAll_from r (S pos) 0
      end
  end.
Proof. reflexivity. Qed.

Lemma matchAll_from_sound s : ∀ pos skip m,
  m ∈ matchAll_from s pos skip →
  ∃ i, m_index m = pos + i ∧ skip ≤ i ∧
       match_here (JS.drop_str i s) = Some (m_text m, m_group m).
Proof.
  induction s as [|c r IH]; intros pos skip m Hm.
  - by apply elem_of_nil in Hm.
  - assert (∀ k, m ∈ matchAll_from r (S pos) k →
                 ∃ i, m_index m = pos + i ∧ S k ≤ i ∧
                      match_here (JS.drop_str i (String c r))
                      = Some (m_text m, m_group m)) as Htail.
    { intros k Hk. destruct (IH _ _ _ Hk) as (i & Hi & Hle & Hmh).
      exists (S i). split; [lia|]. split; [lia|done]. }
    rewrite matchAll_from_cons in Hm. destruct skip as [|k]; [|by apply Htail].
    destruct (match_here (String c r)) as [[t g]|] eqn:Hmh.
    + apply elem_of_cons in Hm as [->|Hm].
      * exists 0. simpl. split; [lia|]. split; [lia|done].
      * destruct (Htail _ Hm) as (i & ? & ? & ?). exists i.
        split; [done|]. split; [lia|done].
    + destruct (Htail _ Hm) as (i & ? & ? & ?). exists i.
      split; [done|]. split; [lia|done].
Qed.

Lemma no_open_append a : ∀ n b,
  no_open (String.length a) a → no_open n b →
  no_open (String.length a + n) (a +:+ b).
Proof.
  induction a as [|x a IH]; intros n b Ha Hb; [done|].
  rewrite Accumulator.append_cons. simpl in *. destruct Ha as [Hx Ha].
  split; [done|]. by apply IH.
Qed.

Lemma no_open_digits g : all_digits g = true → no_open (String.length g) g.
Proof.
  induction g as [|d g IH]; [done|]. simpl.
  intros [Hd Hg]%andb_true_iff. split; [|by apply IH]. by intros ->.
Qed.

Lemma no_open_caret c : caret_or_empty c → no_open (String.length c) c.
Proof. by intros [-> | ->]. Qed.

(** The characters of a match after its bracket hold no opening bracket,
    so no match starts inside another. *)
Lemma match_here_tail c r t g :
  match_here (String c r) = Some (t, g) →
  1 ≤ String.length t ∧ no_open (String.length t - 1) r.
Proof.
  intros [(c1 & c2 & Hc1 & Hc2 & _ & Hd & Ht) [rest Hs]]%match_here_sound.
  subst t.
  change ("[" +:+ c1 +:+ g +:+ c2 +:+ "]")
    with (String "[" (c1 +:+ g +:+ c2 +:+ "]")) in *.
  rewrite Accumulator.append_cons in Hs. injection Hs as -> ->.
  simpl. rewrite Nat.sub_0_r. split; [lia|].
  rewrite !Accumulator.append_assoc, !append_length.
  apply no_open_append; [by apply no_open_caret|].
  apply no_open_append; [by apply no_open_digits|].
  apply no_open_append; [by apply no_open_caret|].
  replace (String.length "]") with (String.length "]" + 0) by done.
  apply no_open_append; [by split|done].
Qed.

Lemma match_here_open c r : c ≠ "["%char → match_here (String c r) = None.
Proof.
  intros Hne. destruct (match_here (String c r)) as [[t g]|] eqn:H; [|done].
  apply match_here_sound in H as [(c1 & c2 & _ & _ & _ & _ & ->) [rest Hs]].
  change ("[" +:+ c1 +:+ g +:+ c2 +:+ "]")
    with (String "[" (c1 +:+ g +:+ c2 +:+ "]")) in Hs.
  rewrite Accumulator.append_cons in Hs. by injection Hs.
Qed.

Lemma match_here_empty : match_here "" = None.
Proof. reflexivity. Qed.

Lemma drop_str_empty i : JS.drop_str i "" = "".
Proof. by destruct i. Qed.

Lemma matchAll_from_complete s : ∀ pos skip i t g,
  no_open skip s →
  match_here (JS.drop_str i s) = Some (t, g) →
  {| m_index := pos + i; m_text := t; m_group := g |}
    ∈ matchAll_from s pos skip.
Proof.
  induction s as [|c r IH]; intros pos skip i t g Hno Hmh.
  - by rewrite drop_str_empty in Hmh.
  - assert (∀ k j, no_open k r →
              match_here (JS.drop_str j r) = Some (t, g) →
              {| m_index := pos + S j; m_text := t; m_group := g |}
                ∈ matchAll_from r (S pos) k) as Htail.
    { intros k j Hk Hj. replace (pos + S j) with (S pos + j) by lia.
      by apply IH. }
    rewrite matchAll_from_cons. destruct skip as [|k].
    + destruct (match_here (String c r)) as [[t0 g0]|] eqn:H0.
      * destruct i as [|j].
        -- change (JS.drop_str 0 (String c r)) with (String c r) in Hmh.
           rewrite H0 in Hmh. injection Hmh as <- <-.
           rewrite Nat.add_0_r. by left.
        -- right. apply Htail; [|done]. by apply match_here_tail in H0 as [_ ?].
      * destruct i as [|j]; [|by apply Htail].
        change (JS.drop_str 0 (String c r)) with (String c r) in Hmh.
        congruence.
    + simpl in Hno. destruct Hno as [Hc Hno]. destruct i as [|j].
      * change (JS.drop_str 0 (String c r)) with (String c r) in Hmh.
        by rewrite match_here_open in Hmh.
      * by apply Htail.
Qed.

(** X8: [matchAll] reports exactly the places of the content where the
    pattern matches, each with the matched text and its group. *)
Theorem matchAll_exact (content : string) (m : RegExpMatch) :
  m ∈ matchAll content ↔
  match_here (JS.drop_str (m_index m) content) = Some (m_text m, m_group m).
Proof.
  split.
  - intros Hm. apply matchAll_from_sound in Hm as (i & Hi & _ & Hmh).
    simpl in Hi. by subst i.
  - intros Hmh. destruct m as [i t g]. simpl in Hmh.
    apply (matchAll_from_complete content 0 0 i t g); [by destruct content|done].
Qed.

Lemma matchAll_from_sorted s : ∀ pos skip,
  StronglySorted before (matchAll_from s pos skip).
Proof.
  induction s as [|c r IH]; intros pos skip; [constructor|].
  rewrite matchAll_from_cons. destruct skip as [|k]; [|apply IH].
  destruct (match_here (String c r)) as [[t g]|] eqn:Hmh; [|apply IH].
  constructor; [apply IH|]. apply Forall_forall. intros m Hm.
  apply matchAll_from_sound in Hm as (i & Hi & Hle & _).
  apply match_here_tail in Hmh as [Hlen _].
  unfold before. simpl. lia.
Qed.

(** X9: the matches come in the order of the content and do not overlap;
    each is a word of the pattern and is the text the content holds at its
    index. *)
Theorem matchAll_ordered (content : string) :
  StronglySorted before (matchAll content) ∧
  ∀ m, m ∈ matchAll content →
       marker (m_text m) (m_group m) ∧
       JS.slice content (m_index m) (m_index m + String.length (m_text m))
       = m_text m.
Proof.
  split; [apply matchAll_from_sorted|].
  intros m (i & Hi & _ & [Hmk [rest Hs]]%match_here_sound)%matchAll_from_sound.
  simpl in Hi. subst i. split; [done|]. unfold JS.slice. rewrite Hs.
  replace (m_index m + String.length (m_text m) - m_index m)
    with (String.length (m_text m)) by lia.
  apply take_append.
Qed.

End Pattern.

(** ** The elements of an answer *)

Module Elements.
Import ChatMessageBubble.
Import PatternDefs.
Import ElementsDefs.

Lemma take_drop_str n s : JS.take_str n s +:+ JS.drop_str n s = s.
Proof.
  revert s. induction n as [|n IH]; intros s; [by destruct s|].
  destruct s as [|c s]; [done|]. simpl.
  rewrite Accumulator.append_cons. by rewrite IH.
Qed.

Lemma drop_drop_str a : ∀ b s,
  JS.drop_str b (JS.drop_str a s) = JS.drop_str (a + b) s.
Proof.
  induction a as [|a IH]; intros b s; [done|].
  destruct s as [|c s]; simpl; [by destruct b|]. apply IH.
Qed.

Lemma drop_append (t r : string) : JS.drop_str (String.length t) (t +:+ r) = r.
Proof.
  induction t as [|x t IH]; [by destruct r|].
  rewrite Accumulator.append_cons. simpl. apply IH.
Qed.

Lemma StronglySorted_filter {A} (R : A → A → Prop) (P : A → Prop)
    `{∀ x, Decision (P x)} (l : list A) :
  StronglySorted R l → StronglySorted R (filter P l).
Proof.
  induction 1 as [|a l Hs IH Hall]; [constructor|].
  rewrite filter_cons. destruct (decide (P a)); [|done].
  constructor; [done|]. apply Forall_forall.
  intros x [_ Hx]%list_elem_of_filter. rewrite Forall_forall in Hall. auto.
Qed.

Section Rendering.

Variable content : string.
Variable fs : list Source.
Variable im : gmap nat nat.
Variable hl : list bool.

Local Abbreviation render_match := (render_match content fs im hl).
Local Abbreviation pieces := (pieces content fs im hl).
Local Abbreviation located := (located content).
Local Abbreviation in_range :=
  (λ m : RegExpMatch, resolve im (parseInt (m_group m)) < length fs).

Lemma foldl_render_match ms : ∀ st,
  elements (foldl render_match st ms) ++
    [span (prevIndex (foldl render_match st ms))
       (JS.slice_from content (prevIndex (foldl render_match st ms)))]
  = elements st ++ pieces (prevIndex st) (filter in_range ms).
Proof.
  induction ms as [|m ms IH]; intros st; [done|].
  change (foldl render_match st (m :: ms))
    with (foldl render_match (render_match st m) ms).
  rewrite IH. unfold ChatMessageBubble.render_match.
  destruct (decide (in_range m)) as [Hin|Hout].
  - rewrite bool_decide_eq_true_2, filter_cons_True by done. simpl.
    by rewrite <- app_assoc.
  - by rewrite bool_decide_eq_false_2, filter_cons_False by done.
Qed.

(** The fold of [createAnswerElements] goes through the cited markers
    only. *)
Lemma createAnswerElements_fold :
  createAnswerElements content fs im hl = pieces 0 (cited content fs im).
Proof.
  unfold createAnswerElements.
  apply (foldl_render_match (matchAll content)
           {| elements := []; prevIndex := 0 |}).
Qed.

(** X10: the elements of an answer are, for each marker that resolves to
    an index into the filtered sources, in the order of the content, a
    span with the content since the previous such marker and a citation
    of the resolved source; then a span with the rest.  Markers that
    resolve elsewhere stay in the text of the spans. *)
Theorem createAnswerElements_pieces :
  createAnswerElements content fs im hl = pieces 0 (cited content fs im) ∧
  cited content fs im `sublist_of` matchAll content ∧
  ∀ m, m ∈ matchAll content →
       (m ∈ cited content fs im
        ↔ resolve im (parseInt (m_group m)) < length fs).
Proof.
  split; [apply createAnswerElements_fold|]. unfold cited. split.
  - apply sublist_filter.
  - intros m Hm. rewrite list_elem_of_filter. tauto.
Qed.

Lemma pieces_citations prev ms :
  Forall in_range ms →
  Forall (λ e, match e with
               | InlineCitation _ src n h =>
                   n < length fs ∧ src = fs !! n ∧ is_Some src ∧ h = hl !! n
               | span _ _ => True
               end) (pieces prev ms).
Proof.
  intros Hall. revert prev.
  induction Hall as [|m ms Hm Hall IH]; intros prev; simpl.
  - by repeat constructor.
  - constructor; [done|]. constructor; [|apply IH].
    split; [done|]. split; [done|]. split; [|done].
    by apply lookup_lt_is_Some_2.
Qed.

(** X11: every citation among the elements of an answer carries a source
    that exists: its number is an index into the filtered sources and its
    source is the entry at that index. *)
Theorem citations_in_range (e : Element) :
  e ∈ createAnswerElements content fs im hl →
  match e with
  | InlineCitation _ src n h =>
      n < length fs ∧ src = fs !! n ∧ is_Some src ∧ h = hl !! n
  | span _ _ => True
  end.
Proof.
  rewrite createAnswerElements_fold. revert e. apply Forall_forall.
  apply pieces_citations. unfold cited.
  apply Forall_forall. by intros m [? _]%list_elem_of_filter.
Qed.

Lemma pieces_length prev ms : length (pieces prev ms) = 2 * length ms + 1.
Proof.
  revert prev. induction ms as [|m ms IH]; intros prev; simpl; [done|].
  rewrite IH. lia.
Qed.

Lemma texts_pieces ms : ∀ prev,
  located prev ms → texts (pieces prev ms) ms = JS.drop_str prev content.
Proof.
  induction ms as [|m ms IH]; intros prev [Hs Hl]; [done|].
  inversion Hs as [|? ? Hs' Hb]; subst. inversion Hl as [|? ? [Hle [rest Hr]] Hl']; subst.
  change (texts (pieces prev (m :: ms)) (m :: ms))
    with (JS.slice content prev (m_index m) +:+ m_text m +:+
          texts (pieces (m_index m + String.length (m_text m)) ms) ms).
  rewrite IH.
  - etrans; [|apply (take_drop_str (m_index m - prev))].
    unfold JS.slice. f_equal.
    rewrite drop_drop_str. replace (prev + (m_index m - prev)) with (m_index m) by lia.
    rewrite Hr. f_equal.
    by rewrite <- drop_drop_str, Hr, drop_append.
  - split; [done|]. apply Forall_forall. intros m' Hm'.
    rewrite Forall_forall in Hb, Hl'. split; [apply (Hb _ Hm')|].
    by destruct (Hl' _ Hm') as [_ ?].
Qed.

(** X12: nothing of the content is lost or repeated: the html of the
    spans, with the text of the cited markers put back between them, is
    the content; and there is one span more than there are citations. *)
Theorem content_preserved :
  texts (createAnswerElements content fs im hl) (cited content fs im) = content ∧
  length (createAnswerElements content fs im hl)
  = 2 * length (cited content fs im) + 1.
Proof.
  rewrite createAnswerElements_fold. split; [|apply pieces_length].
  rewrite texts_pieces; [by destruct content|].
  unfold cited. split.
  - apply StronglySorted_filter, Pattern.matchAll_from_sorted.
  - apply Forall_forall. intros m [_ Hm]%list_elem_of_filter.
    split; [lia|].
    apply Pattern.matchAll_from_sound in Hm as (i & Hi & _ & Hm).
    simpl in Hi. subst i.
    by apply Pattern.match_here_sound in Hm as [_ ?].
Qed.

(** Without sources, the answer is one span holding the whole content,
    whatever markers it has. *)
Lemma no_sources_plain :
  createAnswerElements content [] im hl = [span 0 content].
Proof.
  apply Citations.createAnswerElements_plain. intros m _. simpl. lia.
Qed.

End Rendering.

Lemma citations_in_range_witness :
  0 < length [Demo.src "a"] ∧
  Some (Demo.src "a") = [Demo.src "a"] !! 0 ∧
  is_Some (Some (Demo.src "a")) ∧
  Some false = [false] !! 0.
Proof.
  apply (citations_in_range "see [0]" [Demo.src "a"] {[ 0 := 0 ]} [false]
           (InlineCitation 0 (Some (Demo.src "a")) 0 (Some false))).
  replace (createAnswerElements "see [0]" [Demo.src "a"] {[ 0 := 0 ]} [false])
    with [span 0 "see ";
          InlineCitation 0 (Some (Demo.src "a")) 0 (Some false);
          span 7 ""] by (vm_compute; reflexivity).
  right. left.
Defined.

End Elements.

(** ** Feedback over time *)

Module FeedbackTraces.
Import ChatMessageBubble.
Import FeedbackDefs.
Import FeedbackTraceDefs.

Lemma tight_step m pe : tight m → tight (step m pe).
Proof.
  destruct m as [[ld fb cm col] fl lg], pe as [p [b uuid|k o]];
    unfold tight, step; simpl.
  - destruct (buttons_rendered p); [|done].
    unfold onClick, sendFeedback; simpl.
    destruct fb as [f|]; simpl; [by rewrite app_nil_r|].
    destruct (runId (message p)) as [[|c r]|]; simpl;
      try by rewrite app_nil_r.
    destruct ld; simpl; [by rewrite app_nil_r|].
    destruct fl as [|x [|y fl]]; simpl; [done|by intros [? _]|done].
  - destruct fl as [|x [|y fl]]; [by destruct k|..|done].
    intros [-> ->]. destruct k as [|k]; simpl; [|done].
    unfold sendFeedback_resume. destruct o as [msg|code]; simpl; [done|].
    by destruct (JS.strict_eq_number code 200).
Qed.

Lemma tight_run evs : ∀ m, tight m → tight (run m evs).
Proof.
  induction evs as [|pe evs IH]; intros m Hm; [done|].
  apply IH. by apply tight_step.
Qed.

(** X13: in a bubble, from mount on, at most one feedback request is in
    flight, and the loading flag is set exactly while one is: it is
    cleared however the request ends. *)
Theorem feedback_flag_tracks_request (evs : list (Props * Event)) :
  length (inflight (run mounted evs)) ≤ 1 ∧
  (isLoading (state (run mounted evs)) = true
   ↔ length (inflight (run mounted evs)) = 1).
Proof.
  pose proof (tight_run evs mounted eq_refl) as H. unfold tight in H.
  destruct (inflight (run mounted evs)) as [|x [|y fl]]; simpl; [..|done].
  - rewrite H. split; [lia|]. split; [done|lia].
  - destruct H as [-> _]. split; [lia|done].
Qed.

Lemma buttons_only_step m pe : buttons_only m → buttons_only (step m pe).
Proof.
  intros [Hlog Hfl Hst].
  destruct m as [[ld fb cm col] fl lg], pe as [p [b uuid|k o]];
    unfold step; simpl in *.
  - destruct (buttons_rendered p); [|by split].
    unfold onClick, sendFeedback; simpl.
    destruct fb as [f|]; simpl.
    { split; simpl; [|by rewrite app_nil_r|done].
      apply Forall_app. split; [done|]. by repeat constructor. }
    destruct (runId (message p)) as [[|c r]|] eqn:Hrun; simpl;
      try (split; simpl; [|by rewrite app_nil_r|done];
           apply Forall_app; split; [done|]; by repeat constructor).
    destruct ld; simpl.
    { split; simpl; [|by rewrite app_nil_r|done].
      apply Forall_app. split; [done|]. by repeat constructor. }
    assert (from_buttons
              {| feedback_id := uuid; run_id := String c r; key := "user_score";
                 score := buttonScore b; fb_comment := Some cm |}) as Hb.
    { split; [done|]. split; [|done]. destruct b; [by right|by left]. }
    split; simpl; [|apply Forall_app; split; [done|by constructor]|done].
    apply Forall_app. split; [done|].
    constructor; [by split|]. by repeat constructor.
  - destruct (fl !! k) as [req|] eqn:Hk; [|by split].
    assert (from_buttons req) as Hreq.
    { rewrite Forall_forall in Hfl. apply Hfl.
      apply list_elem_of_lookup. eauto. }
    assert (Forall from_buttons (delete k fl)) as Hdel.
    { by apply Forall_delete. }
    unfold sendFeedback_resume. destruct o as [msg|code]; simpl.
    + split; simpl; [|done|done]. apply Forall_app. split; [done|].
      by repeat constructor.
    + destruct (JS.strict_eq_number code 200); simpl.
      * split; simpl; [|done|].
        -- apply Forall_app. split; [done|]. by repeat constructor.
        -- intros f Hf.
           assert (f = {| feedback_id := feedback_id req; run_id := run_id req;
                          key := key req; score := score req;
                          fb_comment := None |}) as ->.
           { case_match; simpl in Hf; congruence. }
           done.
      * split; simpl; [by rewrite app_nil_r|done|done].
Qed.

Lemma buttons_only_run evs : ∀ m, buttons_only m → buttons_only (run m evs).
Proof.
  induction evs as [|pe evs IH]; intros m Hm; [done|].
  apply IH. by apply buttons_only_step.
Qed.

(** X14: whatever happens to a bubble from mount on, every feedback
    request it sends is a POST (never a PATCH) with the key [user_score],
    a score of 0 or 1 and a non-empty run id, and the feedback it stores
    has that key, such a score and no comment. *)
Theorem feedback_requests_from_buttons (evs : list (Props * Event)) :
  Forall well_sent (log (run mounted evs)) ∧
  ∀ f, feedback (state (run mounted evs)) = Some f →
       from_buttons f ∧ fb_comment f = None.
Proof.
  assert (buttons_only mounted) as H0 by (split; simpl; [constructor..|done]).
  destruct (buttons_only_run evs mounted H0) as [Hlog _ Hst]. by split.
Qed.

(** A click on a shown button of a bubble that is idle, has no feedback
    and a run id sends a request. *)
Lemma click_sends m p rid b uuid :
  feedback (state m) = None →
  isLoading (state m) = false →
  buttons_rendered p = true →
  runId (message p) = Some rid →
  rid ≠ "" →
  step m (p, click b uuid) =
  {| state :=
       {| isLoading := true; feedback := None; comment := comment (state m);
          feedbackColor := buttonColor b |};
     inflight :=
       inflight m ++
         [{| feedback_id := uuid; run_id := rid; key := "user_score";
             score := buttonScore b; fb_comment := Some (comment (state m)) |}];
     log :=
       log m ++
         [fetch (apiBaseUrl p +:+ "/feedback") POST
            {| feedback_id := uuid; run_id := rid; key := "user_score";
               score := buttonScore b;
               fb_comment := Some (comment (state m)) |};
          animateButton (buttonId b)] |}.
Proof.
  destruct m as [[ld fb cm col] fl lg]. simpl. intros -> -> Hr Hrun Hne.
  destruct rid as [|c r]; [done|].
  unfold step, onClick, sendFeedback. simpl. by rewrite Hr, Hrun.
Qed.

(** The end of an only request in flight that did not succeed. *)
Lemma settle_unsuccessful m p req o :
  inflight m = [req] →
  unsuccessful o →
  step m (p, settle 0 o) =
  {| state := setIsLoading false (state m); inflight := [];
     log := log m ++ failure_effects o |}.
Proof.
  destruct m as [st fl lg]. simpl. intros -> Ho.
  unfold step, sendFeedback_resume. simpl.
  destruct o as [msg|code]; [done|]. simpl in Ho.
  destruct code as [| |x|n|x|]; simpl; try done.
  rewrite bool_decide_eq_false_2; [done|]. congruence.
Qed.

(** X15: a feedback request that does not end with [code === 200] leaves
    the bubble ready for another try: the next click sends a new POST, with
    a fresh feedback id and the same comment. *)
Theorem failed_feedback_can_be_retried (m : Machine) (p : Props)
    (rid : string) (b b' : Button) (uuid uuid' : string) (o : Outcome) :
  feedback (state m) = None →
  isLoading (state m) = false →
  inflight m = [] →
  buttons_rendered p = true →
  runId (message p) = Some rid →
  rid ≠ "" →
  unsuccessful o →
  let body := λ (b : Button) (uuid : string),
    {| feedback_id := uuid; run_id := rid; key := "user_score";
       score := buttonScore b; fb_comment := Some (comment (state m)) |} in
  let m' := run m [(p, click b uuid); (p, settle 0 o); (p, click b' uuid')] in
  filter is_fetch (log m') =
    filter is_fetch (log m) ++
      [fetch (apiBaseUrl p +:+ "/feedback") POST (body b uuid);
       fetch (apiBaseUrl p +:+ "/feedback") POST (body b' uuid')] ∧
  inflight m' = [body b' uuid'] ∧
  feedback (state m') = None.
Proof.
  intros Hf Hl Hfl Hr Hrun Hne Ho body m'. unfold m'.
  change (run m [(p, click b uuid); (p, settle 0 o); (p, click b' uuid')])
    with (step (step (step m (p, click b uuid)) (p, settle 0 o))
            (p, click b' uuid')).
  rewrite (click_sends m p rid b uuid Hf Hl Hr Hrun Hne), Hfl.
  erewrite settle_unsuccessful; [|reflexivity|exact Ho].
  erewrite click_sends; [|reflexivity|reflexivity|exact Hr|exact Hrun|exact Hne].
  simpl. split; [|done].
  rewrite !filter_app. simpl. rewrite <- !app_assoc. f_equal.
  unfold failure_effects. by destruct o.
Qed.

Lemma failed_feedback_can_be_retried_witness :
  let body := λ (b : Button) (uuid : string),
    {| feedback_id := uuid; run_id := "run-1"; key := "user_score";
       score := buttonScore b; fb_comment := Some "" |} in
  let m' := run mounted [(shown, click upButton "id-1");
                         (shown, settle 0 (rejected "Failed to fetch"));
                         (shown, click downButton "id-2")] in
  filter is_fetch (log m') =
    [fetch "http://localhost:8080/feedback" POST (body upButton "id-1");
     fetch "http://localhost:8080/feedback" POST (body downButton "id-2")] ∧
  inflight m' = [body downButton "id-2"] ∧
  feedback (state m') = None.
Proof.
  apply (failed_feedback_can_be_retried mounted shown "run-1" upButton
           downButton "id-1" "id-2" (rejected "Failed to fetch"));
    done.
Defined.

Lemma no_run_id_run evs : ∀ m,
  Forall (λ pe, no_run_id pe.1) evs →
  inflight m = [] →
  run m evs =
  {| state := state m; inflight := [];
     log := log m ++ concat (rejection <$> evs) |}.
Proof.
  induction evs as [|[p e] evs IH]; intros m Hall Hfl.
  - simpl. rewrite app_nil_r. destruct m; simpl in *. by subst.
  - inversion Hall as [|? ? Hp Hall']; subst. simpl in Hp.
    change (run m ((p, e) :: evs)) with (run (step m (p, e)) evs).
    assert (step m (p, e) =
            {| state := state m; inflight := [];
               log := log m ++ rejection (p, e) |}) as ->.
    { destruct m as [st fl lg]. simpl in *. subst fl.
      unfold step, rejection. simpl. destruct e as [b uuid|k o]; simpl.
      - destruct (buttons_rendered p); [|by rewrite app_nil_r].
        unfold onClick. destruct Hp as [-> | ->]; by destruct (feedback st).
      - by rewrite app_nil_r. }
    rewrite IH by done. simpl. by rewrite <- app_assoc.
Qed.

(** X16: while the message of a bubble has no run id (none, or an empty
    one), no feedback request is ever sent and nothing is stored: every
    click on a shown button only raises the notice that feedback was
    already provided. *)
Theorem no_run_id_no_feedback (evs : list (Props * Event)) :
  Forall (λ pe, no_run_id pe.1) evs →
  log (run mounted evs) = concat (rejection <$> evs) ∧
  filter is_fetch (log (run mounted evs)) = [] ∧
  state (run mounted evs) = mount ∧
  inflight (run mounted evs) = [].
Proof.
  intros Hall. rewrite (no_run_id_run evs mounted Hall eq_refl). simpl.
  repeat split; try done.
  clear Hall. induction evs as [|pe evs IH]; [done|].
  change (concat (rejection <$> pe :: evs))
    with (rejection pe ++ concat (rejection <$> evs)).
  rewrite filter_app, IH.
  destruct pe as [p [b u|k o]]; unfold rejection; simpl; [|done].
  by destruct (buttons_rendered p).
Qed.

Lemma no_run_id_no_feedback_witness :
  log (run mounted [(without_run, click upButton "id-1");
                    (without_run, click downButton "id-2")])
  = [toast_error already; toast_error already] ∧
  filter is_fetch (log (run mounted [(without_run, click upButton "id-1");
                                     (without_run, click downButton "id-2")]))
  = [] ∧
  state (run mounted [(without_run, click upButton "id-1");
                      (without_run, click downButton "id-2")]) = mount ∧
  inflight (run mounted [(without_run, click upButton "id-1");
                         (without_run, click downButton "id-2")]) = [].
Proof.
  apply (no_run_id_no_feedback [(without_run, click upButton "id-1");
                                (without_run, click downButton "id-2")]).
  repeat constructor.
Defined.

End FeedbackTraces.

(** ** The window over time *)

Module WindowTraces.
Import ChatWindow.
Import SubmissionDefs.
Import AccumulatorDefs.
Import WindowTraceDefs.

Section Libraries.

Variable JSON_parse : string -> option Parsed.t.
Variable marked_parse : string -> string.

Local Abbreviation processText := (processText JSON_parse marked_parse).
Local Abbreviation step := (step JSON_parse marked_parse).
Local Abbreviation run := (run JSON_parse marked_parse).

Lemma run_cons sys e evs : run sys (e :: evs) = run (step sys e) evs.
Proof. reflexivity. Qed.

Lemma run_snoc sys evs e : run sys (evs ++ [e]) = step (run sys evs) e.
Proof. unfold ChatWindow.run. by rewrite foldl_app. Qed.

(** What one event does to the history and to the finished calls: only
    the end of a response being read adds an exchange, and it is then that
    the call becomes finished. *)
Lemma step_history sys e :
  (chatHistory (window (step sys e)) = chatHistory (window sys) ∧
   filter is_finished (calls (step sys e)) = filter is_finished (calls sys))
  ∨ (∃ x, chatHistory (window (step sys e)) = chatHistory (window sys) ++ [x] ∧
          length (filter is_finished (calls (step sys e)))
          = S (length (filter is_finished (calls sys)))).
Proof.
  assert (∀ k c c', calls sys !! k = Some c → is_finished c = false →
            is_finished c' = false →
            filter is_finished (<[k := c']> (calls sys))
            = filter is_finished (calls sys)) as Hsame.
  { intros k c c' Hk Hc Hc'. rewrite <- (take_drop_middle _ _ _ Hk) at 2.
    rewrite insert_take_drop by by eapply lookup_lt_Some.
    rewrite !filter_app, !filter_cons. simpl.
    by rewrite Hc, Hc'. }
  destruct e as [m r c|t|k|k b|k res r]; simpl.
  - unfold sendMessage. destruct (isLoading (window sys)); [by left|].
    case_bool_decide; simpl; [by left|]. left. split; [done|].
    by rewrite filter_app, app_nil_r.
  - by left.
  - destruct (calls sys !! k) as [[mv|s| |]|] eqn:Hk; try by left.
    left. split; [done|]. by eapply Hsame.
  - destruct (calls sys !! k) as [[mv|s| |]|] eqn:Hk; try by left.
    left. split; [done|]. eapply Hsame; [done..|]. by destruct b.
  - destruct (calls sys !! k) as [[mv|s| |]|] eqn:Hk; try by left.
    destruct res as [|chunk].
    + right. simpl. eexists. split; [done|].
      rewrite <- (take_drop_middle _ _ _ Hk) at 2.
      rewrite insert_take_drop by by eapply lookup_lt_Some.
      rewrite !filter_app, !filter_cons, !length_app. simpl. lia.
    + left. destruct (processText s (window sys) (value chunk) r)
        as [[s' st']|] eqn:Hp; simpl.
      * split; [|by eapply Hsame]. unfold ChatWindow.processText in Hp.
        destruct (accumulate_lines _ _ _); [|done].
        destruct (upsert _ _ _ _) as [[]|]; by injection Hp as _ <-.
      * split; [done|]. by eapply Hsame.
Qed.

(** X17: the conversation history only grows, at its end, and holds one
    exchange for each response that was read to its end. *)
Theorem history_append_only (sys : System) (evs : list Event) :
  chatHistory (window sys) `prefix_of` chatHistory (window (run sys evs)) ∧
  length (chatHistory (window (run sys evs))) +
    length (filter is_finished (calls sys))
  = length (chatHistory (window sys)) +
    length (filter is_finished (calls (run sys evs))).
Proof.
  revert sys. induction evs as [|e evs IH]; intros sys; [done|].
  rewrite run_cons. destruct (IH (step sys e)) as [Hp Hl].
  destruct (step_history sys e) as [[H1 H2]|(x & H1 & H2)].
  - rewrite H1 in Hp, Hl. rewrite H2 in Hl. by split.
  - rewrite H1 in Hp, Hl. rewrite H2 in Hl. split.
    + etrans; [|exact Hp]. by apply prefix_app_r.
    + rewrite length_app in Hl. simpl in Hl. lia.
Qed.

Lemma step_calls sys e :
  length (calls sys) = length (requests sys) →
  length (calls (step sys e)) = length (requests (step sys e)) ∧
  length (requests (step sys e))
  = length (requests sys) +
    (if is_submit e
     then length (requests (step sys e)) - length (requests sys) else 0) ∧
  length (requests (step sys e)) ≤ S (length (requests sys)).
Proof.
  intros Hlen. destruct e as [m r c|t|k|k b|k res r]; simpl.
  - destruct (sendMessage c (window sys) m r) as [st [req|]]; simpl.
    + rewrite !length_app. simpl. lia.
    + lia.
  - lia.
  - destruct (calls sys !! k) as [[mv|s| |]|]; simpl;
      rewrite ?length_insert; lia.
  - destruct (calls sys !! k) as [[mv|s| |]|]; simpl;
      rewrite ?length_insert; lia.
  - destruct (calls sys !! k) as [[mv|s| |]|]; simpl; try lia.
    destruct (processText _ _ _ _) as [[]|]; simpl;
      rewrite ?length_insert; lia.
Qed.

(** Every chat request sent has its call on record, and there are never
    more requests than submissions. *)
Lemma one_call_per_request (evs : list Event) :
  length (calls (run start evs)) = length (requests (run start evs)) ∧
  length (requests (run start evs)) ≤ length (filter is_submit evs).
Proof.
  induction evs as [|e evs IH] using rev_ind; [done|].
  rewrite run_snoc, filter_app, length_app. destruct IH as [Hc Hr].
  destruct (step_calls (run start evs) e Hc) as (H1 & H2 & H3).
  split; [done|].
  rewrite filter_cons. destruct (is_submit e); simpl in *; lia.
Qed.

Lemma settled_lookup sys k c :
  Forall settled (calls sys) → calls sys !! k = Some c → settled c.
Proof.
  intros Hall Hk. rewrite Forall_forall in Hall. apply Hall.
  apply list_elem_of_lookup. eauto.
Qed.

Lemma stuck_step sys e :
  stuck sys →
  stuck (step sys e) ∧
  requests (step sys e) = requests sys ∧
  calls (step sys e) = calls sys ∧
  messages (window (step sys e)) = messages (window sys) ∧
  chatHistory (window (step sys e)) = chatHistory (window sys) ∧
  input (window (step sys e)) = default (input (window sys)) (typed_by e).
Proof.
  intros [Hl Hall].
  assert (∀ k, match calls sys !! k with
               | Some (fetching _) | Some (streaming _) => False
               | _ => True
               end) as Hk.
  { intros k. destruct (calls sys !! k) as [c|] eqn:E; [|done].
    pose proof (settled_lookup _ _ _ Hall E). by destruct c. }
  destruct e as [m r c|t|k|k b|k res r]; simpl.
  - rewrite (Submission.sendMessage_loading _ _ _ _ Hl). by repeat split.
  - by repeat split.
  - specialize (Hk k). by destruct (calls sys !! k) as [[]|].
  - specialize (Hk k). by destruct (calls sys !! k) as [[]|].
  - specialize (Hk k). by destruct (calls sys !! k) as [[]|].
Qed.

(** X18: once the window is loading and no call is left that is awaiting
    its response or being read, it stays so whatever happens: every later
    submission is ignored, no request is sent, and the messages and the
    history stay as they are.  The input field still takes what is typed,
    and nothing else changes it. *)
Theorem stuck_for_good (sys : System) (evs : list Event) :
  stuck sys →
  stuck (run sys evs) ∧
  requests (run sys evs) = requests sys ∧
  calls (run sys evs) = calls sys ∧
  messages (window (run sys evs)) = messages (window sys) ∧
  chatHistory (window (run sys evs)) = chatHistory (window sys) ∧
  input (window (run sys evs)) = default (input (window sys)) (last_typed evs).
Proof.
  revert sys. induction evs as [|e evs IH]; intros sys Hs; [done|].
  rewrite run_cons.
  destruct (stuck_step sys e Hs) as (Hs' & <- & <- & <- & <- & Hin).
  destruct (IH _ Hs') as (H1 & H2 & H3 & H4 & H5 & H6).
  repeat (split; [done|]).
  rewrite H6, Hin. unfold last_typed. rewrite Accumulator.last_omap_cons.
  by destruct (last (omap typed_by evs)).
Qed.

(** The state after a submission that passed the guards and whose request
    was answered. *)
Lemma submitted_and_resolved sys message rnd cid hasBody :
  isLoading (window sys) = false →
  default (input (window sys)) message ≠ "" →
  run sys [submit message rnd cid; fetch_resolves (length (calls sys)) hasBody]
  = {| window :=
         {| messages :=
              messages (window sys)
                ++ [userMessage rnd (default (input (window sys)) message)];
            input := ""; isLoading := true;
            chatHistory := chatHistory (window sys); grow := true;
            unmounted := unmounted (window sys) |};
       calls :=
         calls sys ++
           [if hasBody
            then streaming (open_stream (default (input (window sys)) message))
            else failed];
       requests :=
         requests sys ++
           [{| message := default (input (window sys)) message;
               history := chatHistory (window sys);
               conversation_id := cid |}] |}.
Proof.
  intros Hl Hne. rewrite run_cons.
  assert (step sys (submit message rnd cid) =
          {| window :=
               {| messages :=
                    messages (window sys)
                      ++ [userMessage rnd (default (input (window sys)) message)];
                  input := ""; isLoading := true;
                  chatHistory := chatHistory (window sys); grow := true;
                  unmounted := unmounted (window sys) |};
             calls :=
               calls sys ++ [fetching (default (input (window sys)) message)];
             requests :=
               requests sys ++
                 [{| message := default (input (window sys)) message;
                     history := chatHistory (window sys);
                     conversation_id := cid |}] |}) as ->.
  { unfold ChatWindow.step.
    by rewrite (Submission.sendMessage_sends _ _ _ _ Hl Hne). }
  unfold ChatWindow.run, ChatWindow.step. simpl.
  rewrite lookup_app_r, Nat.sub_diag by lia. simpl.
  by rewrite insert_app_r_alt, Nat.sub_diag by lia.
Qed.

(** X19: a response that ends before any chunk was read leaves no
    assistant message, records an exchange with an empty answer, and never
    clears the loading flag: with no other call under way the window is
    stuck. *)
Theorem empty_response_stuck (sys : System) (message : option string)
    (rnd cid rnd' : string) :
  isLoading (window sys) = false →
  default (input (window sys)) message ≠ "" →
  Forall settled (calls sys) →
  let mv := default (input (window sys)) message in
  let k := length (calls sys) in
  let sys' := run sys [submit message rnd cid; fetch_resolves k true;
                       read k done rnd'] in
  messages (window sys') = messages (window sys) ++ [userMessage rnd mv] ∧
  chatHistory (window sys') =
    chatHistory (window sys) ++ [{| human := mv; ai := "" |}] ∧
  stuck sys'.
Proof.
  intros Hl Hne Hall mv k sys'. unfold sys'.
  change [submit message rnd cid; fetch_resolves k true; read k done rnd']
    with ([submit message rnd cid; fetch_resolves k true] ++ [read k done rnd']).
  rewrite run_snoc, (submitted_and_resolved _ _ _ _ _ Hl Hne).
  unfold ChatWindow.step. simpl. subst k.
  rewrite lookup_app_r, Nat.sub_diag by lia. simpl.
  rewrite insert_app_r_alt, Nat.sub_diag by lia. simpl.
  split; [done|]. split; [done|]. split; [done|]. simpl.
  apply Forall_app. split; [done|]. by repeat constructor.
Qed.

(** X20: when the response has no body, [sendMessage] throws after the
    user message was added: that message stays, the input is not restored,
    and the loading flag stays set; with no other call under way the
    window is stuck. *)
Theorem null_body_stuck (sys : System) (message : option string)
    (rnd cid : string) :
  isLoading (window sys) = false →
  default (input (window sys)) message ≠ "" →
  Forall settled (calls sys) →
  let mv := default (input (window sys)) message in
  let sys' := run sys [submit message rnd cid;
                       fetch_resolves (length (calls sys)) false] in
  messages (window sys') = messages (window sys) ++ [userMessage rnd mv] ∧
  input (window sys') = "" ∧
  chatHistory (window sys') = chatHistory (window sys) ∧
  stuck sys'.
Proof.
  intros Hl Hne Hall mv sys'. unfold sys'.
  rewrite (submitted_and_resolved _ _ _ _ _ Hl Hne). simpl.
  split; [done|]. split; [done|]. split; [done|]. split; [done|]. simpl.
  apply Forall_app. split; [done|]. by repeat constructor.
Qed.

Lemma accumulate_lines_None lines : ∀ s,
  Exists (λ l, JSON_parse l = None) lines →
  accumulate_lines JSON_parse s lines = None.
Proof.
  induction lines as [|l lines IH]; intros s Hex; [by inversion Hex|].
  simpl. destruct (JSON_parse l) as [o|] eqn:Hl; [|done].
  apply IH. inversion Hex; [congruence|done].
Qed.

(** X21: a chunk with a line that does not decode makes [processText]
    throw before it touches the window: the window stays as it was, the
    call is over, and what is read for it afterwards is ignored, so the
    exchange never reaches the history. *)
Theorem undecodable_line_ends_response (sys : System) (k : nat) (s : Stream)
    (chunk rnd : string) (evs : list Event) :
  calls sys !! k = Some (streaming s) →
  Exists (λ l, JSON_parse l = None) (lines_of chunk) →
  Forall (about k) evs →
  step sys (read k (value chunk) rnd) =
    {| window := window sys; calls := <[k := failed]> (calls sys);
       requests := requests sys |} ∧
  run (step sys (read k (value chunk) rnd)) evs
  = step sys (read k (value chunk) rnd).
Proof.
  intros Hk Hex Hevs.
  assert (step sys (read k (value chunk) rnd) =
          {| window := window sys; calls := <[k := failed]> (calls sys);
             requests := requests sys |}) as ->.
  { unfold ChatWindow.step, ChatWindow.processText. rewrite Hk.
    fold (lines_of chunk). by rewrite (accumulate_lines_None _ _ Hex). }
  split; [done|].
  induction Hevs as [|e evs He Hevs IH]; [done|].
  rewrite run_cons.
  assert (∀ sys0, calls sys0 !! k = Some failed → step sys0 e = sys0) as Hno.
  { intros sys0 H0. destruct e as [m r c|t|j|j b|j res r]; simpl in He;
      [done|done|subst j..]; simpl; by rewrite H0. }
  rewrite Hno; [done|]. simpl.
  apply list_lookup_insert_eq. by eapply lookup_lt_Some.
Qed.

Lemma trimStart_all_space s : all_space s = true → JS.trimStart s = "".
Proof.
  induction s as [|c s IH]; [done|]. simpl.
  intros [Hc Hs]%andb_true_iff. rewrite Hc. by apply IH.
Qed.

(** X22: a chunk that is empty or holds only white space makes
    [processText] throw: trimmed and split it is one empty line, which is
    no JSON. *)
Theorem blank_chunk_throws (s : Stream) (st : State) (chunk rnd : string) :
  all_space chunk = true →
  JSON_parse "" = None →
  lines_of chunk = [""] ∧ processText s st (value chunk) rnd = None.
Proof.
  intros Hsp Hnone.
  assert (lines_of chunk = [""]) as Hl.
  { unfold lines_of, JS.trim. by rewrite trimStart_all_space. }
  split; [done|]. unfold ChatWindow.processText. fold (lines_of chunk).
  rewrite Hl. simpl. by rewrite Hnone.
Qed.

Lemma accumulate_lines_index lines : ∀ s s',
  accumulate_lines JSON_parse s lines = Some s' →
  messageIndex s' = messageIndex s.
Proof.
  intros s s'. rewrite Accumulator.accumulate_lines_mapM.
  destruct (mapM JSON_parse lines) as [objs|]; [|done]. intros [= <-].
  by destruct (Accumulator.foldl_accumulate_frame objs s) as [_ ->].
Qed.

Lemma processText_missing_slot (s : Stream) (st : State) (chunk rnd : string)
    (objs : list Parsed.t) (i : nat) :
  messageIndex s = Some i →
  length (messages st) ≤ i →
  mapM JSON_parse (lines_of chunk) = Some objs →
  processText s st (value chunk) rnd =
  Some (foldl accumulate s objs,
        {| messages := messages st; input := input st; isLoading := false;
           chatHistory := chatHistory st; grow := grow st;
           unmounted := true |}).
Proof.
  intros Hi Hlen Hp. unfold ChatWindow.processText. fold (lines_of chunk).
  rewrite Accumulator.accumulate_lines_mapM, Hp. simpl. unfold upsert.
  destruct (Accumulator.foldl_accumulate_frame objs s) as [_ ->].
  by rewrite Hi, lookup_ge_None_2.
Qed.

Lemma processText_unmounted (s s' : Stream) (st st' : State)
    (res : ReadResult) (rnd : string) :
  processText s st res rnd = Some (s', st') →
  unmounted st = true → unmounted st' = true.
Proof.
  unfold ChatWindow.processText. destruct res as [|chunk].
  - by intros [= _ <-].
  - destruct (accumulate_lines _ _ _) as [s1|]; [|done].
    by destruct (upsert _ _ _ _) as [[s2 l]|]; intros [= _ <-].
Qed.

Lemma step_unmounted (sys : System) (e : Event) :
  unmounted (window sys) = true → unmounted (window (step sys e)) = true.
Proof.
  intros Hu. destruct e as [m r c|t|k|k b|k res r]; simpl.
  - unfold sendMessage. destruct (isLoading (window sys)); [done|].
    by destruct (bool_decide _).
  - done.
  - by destruct (calls sys !! k) as [[]|].
  - by destruct (calls sys !! k) as [[]|]; [destruct b|..].
  - destruct (calls sys !! k) as [[mv|s| |]|]; try done.
    destruct (processText s (window sys) res r) as [[s' st']|] eqn:Hp; [|done].
    destruct res; simpl; by eapply processText_unmounted.
Qed.

Lemma run_unmounted (evs : list Event) : ∀ sys,
  unmounted (window sys) = true → unmounted (window (run sys evs)) = true.
Proof.
  induction evs as [|e evs IH]; intros sys Hu; [done|].
  rewrite run_cons. by apply IH, step_unmounted.
Qed.

(** X23: when the slot of a response is no longer in the message list
    (the list is shorter than the recorded index), a chunk of that response
    whose lines decode does not make [processText] throw: the buffer takes
    the tokens, the messages stay as they were, no request is sent, and the
    call goes on reading.  The updater has thrown while React rendered,
    so the window is unmounted, and stays so whatever follows. *)
Theorem missing_slot_unmounts (sys : System) (k : nat) (s : Stream)
    (chunk rnd : string) (objs : list Parsed.t) (i : nat)
    (evs : list Event) :
  calls sys !! k = Some (streaming s) →
  messageIndex s = Some i →
  length (messages (window sys)) ≤ i →
  mapM JSON_parse (lines_of chunk) = Some objs →
  let sys' := step sys (read k (value chunk) rnd) in
  (∃ st', processText s (window sys) (value chunk) rnd
          = Some (foldl accumulate s objs, st')) ∧
  calls sys' = <[k := streaming (foldl accumulate s objs)]> (calls sys) ∧
  requests sys' = requests sys ∧
  messages (window sys') = messages (window sys) ∧
  unmounted (window sys') = true ∧
  unmounted (window (run sys' evs)) = true.
Proof.
  intros Hk Hi Hlen Hp sys'.
  pose proof (processText_missing_slot s (window sys) chunk rnd objs i
                Hi Hlen Hp) as Hpt.
  assert (sys' =
    {| window :=
         {| messages := messages (window sys); input := input (window sys);
            isLoading := false; chatHistory := chatHistory (window sys);
            grow := grow (window sys); unmounted := true |};
       calls := <[k := streaming (foldl accumulate s objs)]> (calls sys);
       requests := requests sys |}) as ->.
  { unfold sys', ChatWindow.step. by rewrite Hk, Hpt. }
  split; [by eexists|]. repeat (split; [done|]). by apply run_unmounted.
Qed.


(** X25: the rollback of a failed request removes whatever message is
    last.  When another response delivers its first chunk between the
    submission and the failure, it is the slot of that response that is
    removed: the message whose request failed stays in the list, and the
    next chunk of the other response, its slot gone, makes the updater
    throw, so that React unmounts the window. *)
Theorem rollback_removes_last_message (sys : System)
    (message : option string) (rnd cid : string) (j : nat) (s : Stream)
    (chunk rnd1 : string) (objs : list Parsed.t) (chunk2 rnd2 : string)
    (objs2 : list Parsed.t) :
  isLoading (window sys) = false →
  default (input (window sys)) message ≠ "" →
  calls sys !! j = Some (streaming s) →
  messageIndex s = None →
  mapM JSON_parse (lines_of chunk) = Some objs →
  mapM JSON_parse (lines_of chunk2) = Some objs2 →
  let mv := default (input (window sys)) message in
  let sys' := run sys [submit message rnd cid; read j (value chunk) rnd1;
                       fetch_rejects (length (calls sys))] in
  messages (window sys') = messages (window sys) ++ [userMessage rnd mv] ∧
  input (window sys') = mv ∧
  (∃ s', calls sys' !! j = Some (streaming s') ∧
         messageIndex s' = Some (length (messages (window sys'))) ) ∧
  unmounted (window (step sys' (read j (value chunk2) rnd2))) = true.
Proof.
  intros Hl Hne Hj Hi Hp Hp2 mv sys'.
  assert (j < length (calls sys)) as Hlt by by eapply lookup_lt_Some.
  set (s1 := AccumulatorDefs.with_index (foldl accumulate s objs)
               (length (messages (window sys) ++ [userMessage rnd mv]))).
  assert (sys' =
    {| window :=
         {| messages := messages (window sys) ++ [userMessage rnd mv];
            input := mv; isLoading := false;
            chatHistory := chatHistory (window sys); grow := true;
            unmounted := unmounted (window sys) |};
       calls := <[length (calls sys) := failed]>
                  (<[j := streaming s1]> (calls sys ++ [fetching mv]));
       requests :=
         requests sys ++
           [{| message := mv; history := chatHistory (window sys);
               conversation_id := cid |}] |}) as ->.
  { unfold sys'. rewrite !run_cons.
    assert (step sys (submit message rnd cid) =
            {| window :=
                 {| messages := messages (window sys) ++ [userMessage rnd mv];
                    input := ""; isLoading := true;
                    chatHistory := chatHistory (window sys); grow := true;
                    unmounted := unmounted (window sys) |};
               calls := calls sys ++ [fetching mv];
               requests :=
                 requests sys ++
                   [{| message := mv; history := chatHistory (window sys);
                       conversation_id := cid |}] |}) as ->.
    { unfold ChatWindow.step.
      by rewrite (Submission.sendMessage_sends _ _ _ _ Hl Hne). }
    unfold ChatWindow.step at 2. cbn [calls window requests].
    rewrite lookup_app_l, Hj by done.
    rewrite (Accumulator.processText_first _ _ _ _ _ _ _ Hi Hp).
    unfold ChatWindow.run, ChatWindow.step. simpl.
    rewrite list_lookup_insert_ne by lia.
    rewrite lookup_app_r, Nat.sub_diag by lia. simpl.
    unfold sendMessage_catch. simpl.
    by rewrite Submission.slice_0_m1_snoc. }
  assert ((<[length (calls sys) := failed]>
             (<[j := streaming s1]> (calls sys ++ [fetching mv]))) !! j
          = Some (streaming s1)) as Hj'.
  { rewrite list_lookup_insert_ne by lia. apply list_lookup_insert_eq.
    rewrite length_app. simpl. lia. }
  split; [done|]. split; [done|]. split; [by exists s1|].
  unfold ChatWindow.step. cbn [calls window requests]. rewrite Hj'.
  by rewrite (processText_missing_slot s1 _ chunk2 rnd2 objs2
                (length (messages (window sys) ++ [userMessage rnd mv]))).
Qed.

Lemma accumulate_reads s o :
  runId (accumulate s o) = from_option Some (runId s) (read_run_id o) ∧
  sources (accumulate s o) = from_option Some (sources s) (read_sources o).
Proof.
  unfold accumulate, read_run_id, read_sources.
  by destruct (Parsed.tok o), (Parsed.run_id o), (Parsed.sources o).
Qed.

Lemma foldl_accumulate_reads objs : ∀ s,
  runId (foldl accumulate s objs)
  = from_option Some (runId s) (last (omap read_run_id objs)) ∧
  sources (foldl accumulate s objs)
  = from_option Some (sources s) (last (omap read_sources objs)).
Proof.
  induction objs as [|o objs IH]; intros s; [done|].
  change (foldl accumulate s (o :: objs))
    with (foldl accumulate (accumulate s o) objs).
  destruct (IH (accumulate s o)) as [-> ->].
  destruct (accumulate_reads s o) as [-> ->].
  rewrite !Accumulator.last_omap_cons. split.
  - by destruct (last (omap read_run_id objs)).
  - by destruct (last (omap read_sources objs)).
Qed.

(** X26: whatever properties the objects of a response have, the buffer
    is the concatenation of all their tokens; an object with a token
    counts as a token only, so the run id kept is the last one of an object
    without a token, and the sources kept are the last ones of an object
    with neither a token nor a run id. *)
Theorem token_takes_precedence (mv : string) (st : State)
    (chunks : list (string * string)) (objs : list Parsed.t) :
  parse_chunks JSON_parse chunks.*1 = Some objs →
  ∃ s' st',
    read_chunks JSON_parse marked_parse (open_stream mv) st chunks
      = Some (s', st') ∧
    accumulatedMessage s' = tok_concat objs ∧
    runId s' = last (omap read_run_id objs) ∧
    sources s' = last (omap read_sources objs).
Proof.
  intros Hp. destruct chunks as [|[c r] rest].
  - injection Hp as <-. by exists (open_stream mv), st.
  - rewrite (Accumulator.read_chunks_fresh _ _ rest c r (open_stream mv) st
               objs eq_refl Hp).
    eexists _, _. split; [reflexivity|]. simpl.
    rewrite Accumulator.foldl_accumulate_tok.
    destruct (foldl_accumulate_reads objs (open_stream mv)) as [-> ->].
    simpl. by rewrite !Accumulator.from_option_Some_None.
Qed.

End Libraries.

Lemma token_takes_precedence_witness :
  ∃ s' st',
    read_chunks (λ _, Some both) Demo.marked_parse (open_stream "a") initial
      [("line", "0.2")] = Some (s', st') ∧
    accumulatedMessage s' = "x" ∧
    runId s' = None ∧
    sources s' = None.
Proof.
  apply (token_takes_precedence (λ _, Some both) Demo.marked_parse "a" initial
           [("line", "0.2")] [both]).
  reflexivity.
Defined.

Lemma stuck_for_good_witness :
  stuck hung ∧
  requests (run Demo.JSON_parse Demo.marked_parse hung
              [submit (Some "again") "0.5" "c"; change "again";
               read 1 done ""; submit None "0.6" "c"])
  = requests hung ∧
  input (window (run Demo.JSON_parse Demo.marked_parse hung
                   [submit (Some "again") "0.5" "c"; change "again";
                    read 1 done ""; submit None "0.6" "c"]))
  = "again".
Proof.
  assert (stuck hung) as H by (split; [reflexivity|by repeat constructor]).
  split; [exact H|].
  destruct (stuck_for_good Demo.JSON_parse Demo.marked_parse hung
              [submit (Some "again") "0.5" "c"; change "again";
               read 1 done ""; submit None "0.6" "c"] H)
    as (_ & Hr & _ & _ & _ & Hi).
  split; [exact Hr|exact Hi].
Defined.

Lemma empty_response_stuck_witness :
  let sys' := run Demo.JSON_parse Demo.marked_parse at_rest
                [submit (Some "b") "0.3" "c"; fetch_resolves 1 true;
                 read 1 done ""] in
  messages (window sys') = messages (window at_rest) ++ [userMessage "0.3" "b"] ∧
  chatHistory (window sys') =
    chatHistory (window at_rest) ++ [{| human := "b"; ai := "" |}] ∧
  stuck sys'.
Proof.
  apply (empty_response_stuck Demo.JSON_parse Demo.marked_parse at_rest
           (Some "b") "0.3" "c" "").
  - reflexivity.
  - discriminate.
  - by repeat constructor.
Defined.

Lemma null_body_stuck_witness :
  messages (window hung) = messages (window at_rest) ++ [userMessage "0.3" "b"] ∧
  input (window hung) = "" ∧
  chatHistory (window hung) = chatHistory (window at_rest) ∧
  stuck hung.
Proof.
  apply (null_body_stuck Demo.JSON_parse Demo.marked_parse at_rest
           (Some "b") "0.3" "c").
  - reflexivity.
  - discriminate.
  - by repeat constructor.
Defined.

Lemma undecodable_line_ends_response_witness :
  step Demo.JSON_parse Demo.marked_parse awaiting_chunk (read 0 (value "{") "0.2")
  = {| window := window awaiting_chunk; calls := [failed];
       requests := requests awaiting_chunk |} ∧
  run Demo.JSON_parse Demo.marked_parse
    (step Demo.JSON_parse Demo.marked_parse awaiting_chunk
       (read 0 (value "{") "0.2"))
    [read 0 (value (Demo.line_of "tok" "x")) "0.3"; read 0 done ""]
  = step Demo.JSON_parse Demo.marked_parse awaiting_chunk
      (read 0 (value "{") "0.2").
Proof.
  apply (undecodable_line_ends_response Demo.JSON_parse Demo.marked_parse
           awaiting_chunk 0 (open_stream "a") "{" "0.2"
           [read 0 (value (Demo.line_of "tok" "x")) "0.3"; read 0 done ""]).
  - reflexivity.
  - by apply Exists_cons_hd.
  - by repeat constructor.
Defined.

Lemma blank_chunk_throws_witness :
  lines_of (" " +:+ Demo.newline) = [""] ∧
  processText Demo.JSON_parse Demo.marked_parse (open_stream "a") initial
    (value (" " +:+ Demo.newline)) "0.2" = None.
Proof.
  apply (blank_chunk_throws Demo.JSON_parse Demo.marked_parse
           (open_stream "a") initial (" " +:+ Demo.newline) "0.2");
    reflexivity.
Defined.

Lemma missing_slot_unmounts_witness :
  let sys' := step Demo.JSON_parse Demo.marked_parse slot_gone
                (read 1 (value (Demo.line_of "tok" "w")) "0.7") in
  calls sys' !! 1 = Some (streaming slot_gone_stream_next) ∧
  messages (window sys') = messages (window slot_gone) ∧
  unmounted (window sys') = true ∧
  unmounted (window (run Demo.JSON_parse Demo.marked_parse sys'
                       [change "d"; read 1 done ""])) = true.
Proof.
  destruct (missing_slot_unmounts Demo.JSON_parse Demo.marked_parse slot_gone
              1 slot_gone_stream (Demo.line_of "tok" "w") "0.7"
              [{| Parsed.tok := Some "w"; Parsed.run_id := None;
                  Parsed.sources := None |}] 4
              [change "d"; read 1 done ""])
    as (_ & Hc & _ & Hm & Hu & Hr).
  - reflexivity.
  - reflexivity.
  - simpl. lia.
  - reflexivity.
  - split; [|split; [exact Hm|split; [exact Hu|exact Hr]]].
    cbv zeta. rewrite Hc. reflexivity.
Defined.


Lemma rollback_removes_last_message_witness :
  let sys' := run Demo.JSON_parse Demo.marked_parse two_under_way
                [submit (Some "c") "0.5" "c";
                 read 1 (value (Demo.line_of "tok" "z")) "0.6";
                 fetch_rejects 2] in
  messages (window sys')
  = messages (window two_under_way) ++ [userMessage "0.5" "c"] ∧
  input (window sys') = "c" ∧
  (∃ s', calls sys' !! 1 = Some (streaming s') ∧
         messageIndex s' = Some (length (messages (window sys')))) ∧
  unmounted (window (step Demo.JSON_parse Demo.marked_parse sys'
                       (read 1 (value (Demo.line_of "tok" "w")) "0.7")))
  = true.
Proof.
  apply (rollback_removes_last_message Demo.JSON_parse Demo.marked_parse
           two_under_way (Some "c") "0.5" "c" 1 (open_stream "b")
           (Demo.line_of "tok" "z") "0.6"
           [{| Parsed.tok := Some "z"; Parsed.run_id := None;
               Parsed.sources := None |}]
           (Demo.line_of "tok" "w") "0.7"
           [{| Parsed.tok := Some "w"; Parsed.run_id := None;
               Parsed.sources := None |}]).
  - reflexivity.
  - discriminate.
  - reflexivity.
  - reflexivity.
  - reflexivity.
  - reflexivity.
Defined.

End WindowTraces.

(** ** The lines of a chunk *)

Module Lines.
Import ChatWindow.
Import AccumulatorDefs.
Import WindowTraceDefs.

Lemma no_line_feed_app a b :
  no_line_feed (a +:+ b) = no_line_feed a && no_line_feed b.
Proof.
  induction a as [|c a IH]; [done|].
  rewrite Accumulator.append_cons. simpl. rewrite IH. by destruct (Ascii.eqb _ _).
Qed.

Lemma split_lines_cons c r :
  JS.split_lines (String c r) =
  if Ascii.eqb c "010"%char then "" :: JS.split_lines r
  else match JS.split_lines r with
       | [] => [String c ""]
       | l :: ls => String c l :: ls
       end.
Proof. reflexivity. Qed.

Lemma split_lines_one l : no_line_feed l = true → JS.split_lines l = [l].
Proof.
  induction l as [|c l IH]; [done|]. simpl no_line_feed.
  intros [Hc Hl]%andb_true_iff. rewrite split_lines_cons.
  apply negb_true_iff in Hc. by rewrite Hc, (IH Hl).
Qed.

Lemma split_lines_line l rest :
  no_line_feed l = true →
  JS.split_lines (l +:+ Demo.newline +:+ rest) = l :: JS.split_lines rest.
Proof.
  induction l as [|c l IH].
  - intros _. reflexivity.
  - simpl no_line_feed. intros [Hc Hl]%andb_true_iff.
    rewrite Accumulator.append_cons, split_lines_cons.
    apply negb_true_iff in Hc. by rewrite Hc, (IH Hl).
Qed.

Lemma split_join ls :
  ls ≠ [] → Forall (λ l, no_line_feed l = true) ls →
  JS.split_lines (join_lines ls) = ls.
Proof.
  intros Hne Hall. induction Hall as [|l ls Hl Hall IH]; [done|].
  destruct ls as [|l2 ls]; [by apply split_lines_one|].
  change (join_lines (l :: l2 :: ls))
    with (l +:+ Demo.newline +:+ join_lines (l2 :: ls)).
  rewrite split_lines_line by done. by rewrite IH.
Qed.

Lemma trimEnd_cons c r :
  JS.trimEnd (String c r) =
  match JS.trimEnd r with
  | EmptyString => if JS.is_space c then "" else String c ""
  | r' => String c r'
  end.
Proof. reflexivity. Qed.

Lemma trimEnd_keep a r :
  JS.trimEnd r ≠ "" → JS.trimEnd (a +:+ r) = a +:+ JS.trimEnd r.
Proof.
  intros Hne. induction a as [|c a IH]; [done|].
  rewrite !Accumulator.append_cons, trimEnd_cons, IH.
  destruct (a +:+ JS.trimEnd r) eqn:E; [|done].
  destruct a; [|done]. by rewrite Pattern.append_nil_l in E.
Qed.

Lemma framed_no_line_feed l : framed l → no_line_feed l = true.
Proof.
  intros (body & -> & Hb). rewrite !no_line_feed_app, Hb. reflexivity.
Qed.

Lemma trimEnd_framed_line l :
  framed l → JS.trimEnd (l +:+ Demo.newline) = l.
Proof.
  intros (body & -> & _).
  rewrite !Accumulator.append_assoc.
  change ("{" +:+ body +:+ "}" +:+ Demo.newline)
    with (String "{" (body +:+ "}" +:+ Demo.newline)).
  rewrite <- Accumulator.append_cons.
  rewrite trimEnd_keep; [done|]. by vm_compute.
Qed.

Lemma join_framed_nonempty l ls : framed l → join_lines (l :: ls) ≠ "".
Proof.
  intros (body & -> & _).
  change ("{" +:+ body +:+ "}") with (String "{" (body +:+ "}")).
  by destruct ls.
Qed.

Lemma trimEnd_chunk ls :
  ls ≠ [] → Forall framed ls → JS.trimEnd (chunk_of ls) = join_lines ls.
Proof.
  intros Hne Hall. induction Hall as [|l ls Hl Hall IH]; [done|].
  destruct ls as [|l2 ls].
  - change (chunk_of [l]) with (l +:+ Demo.newline +:+ "").
    rewrite Accumulator.append_nil_r. by apply trimEnd_framed_line.
  - change (chunk_of (l :: l2 :: ls))
      with (l +:+ Demo.newline +:+ chunk_of (l2 :: ls)).
    rewrite <- Accumulator.append_assoc.
    rewrite trimEnd_keep; rewrite IH by done.
    + by rewrite Accumulator.append_assoc.
    + inversion Hall; subst. by apply join_framed_nonempty.
Qed.

(** X27: a chunk made of object lines, each ended by a line feed, is
    split back into exactly those lines: the final line feed is trimmed
    away and gives no empty line. *)
Theorem lines_round_trip (ls : list string) :
  ls ≠ [] → Forall framed ls → lines_of (chunk_of ls) = ls.
Proof.
  intros Hne Hall. unfold lines_of, JS.trim.
  assert (JS.trimStart (chunk_of ls) = chunk_of ls) as ->.
  { destruct Hall as [|l ls (body & -> & _) _]; [done|]. reflexivity. }
  rewrite trimEnd_chunk by done. apply split_join; [done|].
  eapply Forall_impl; [exact Hall|]. apply framed_no_line_feed.
Qed.

Lemma lines_round_trip_witness :
  lines_of (chunk_of [Demo.line_of "tok" "Hel"; Demo.line_of "run_id" "R1"])
  = [Demo.line_of "tok" "Hel"; Demo.line_of "run_id" "R1"].
Proof.
  apply (lines_round_trip [Demo.line_of "tok" "Hel"; Demo.line_of "run_id" "R1"]).
  - discriminate.
  - constructor; [|constructor; [|constructor]].
    + exists (Demo.quote +:+ "tok" +:+ Demo.quote +:+ ":" +:+ Demo.quote
                +:+ "Hel" +:+ Demo.quote).
      split; reflexivity.
    + exists (Demo.quote +:+ "run_id" +:+ Demo.quote +:+ ":" +:+ Demo.quote
                +:+ "R1" +:+ Demo.quote).
      split; reflexivity.
Defined.

End Lines.

(** ** The trace link *)

Module TraceFacts.
Import Trace.
Import ViewDefs.

(** A membership in a short explicit list, refuted constructor by
    constructor. *)
Ltac absent H :=
  repeat (apply elem_of_cons in H as [H|H]; [discriminate H|]);
  by apply elem_of_nil in H.

Lemma strip_quotes_clean s : has_quote (strip_quotes s) = false.
Proof.
  induction s as [|c s IH]; [done|]. simpl.
  destruct (is_quote c) eqn:Hc; [done|]. simpl. by rewrite Hc.
Qed.

Lemma strip_quotes_id s : has_quote s = false → strip_quotes s = s.
Proof.
  induction s as [|c s IH]; [done|]. simpl.
  intros [Hc Hs]%orb_false_iff. rewrite Hc. by rewrite IH.
Qed.

(** X28: [viewTrace] opens a window exactly when the body of the response
    is a string; it then opens one, in a new tab, on that string with its
    quotes removed, so that no quote is left in the address, and an
    address without quotes is opened as it is. *)
Theorem trace_window_only_for_text (type_error_message : TraceData → string)
    (apiBaseUrl : string) (r : Response) (u t : string) :
  (window_open u t ∈ viewTrace type_error_message apiBaseUrl r ↔
   t = "_blank" ∧ ∃ s, r = resolves (trace_text s) ∧ u = strip_quotes s) ∧
  (window_open u t ∈ viewTrace type_error_message apiBaseUrl r →
   has_quote u = false) ∧
  (∀ s, has_quote s = false →
        viewTrace type_error_message apiBaseUrl (resolves (trace_text s))
        = [fetch_trace (apiBaseUrl +:+ "/get_trace"); window_open s "_blank"]).
Proof.
  assert (window_open u t ∈ viewTrace type_error_message apiBaseUrl r ↔
          t = "_blank" ∧ ∃ s, r = resolves (trace_text s) ∧ u = strip_quotes s)
    as Hiff.
  { unfold viewTrace. rewrite elem_of_cons. split.
    - intros [?|Hin]; [done|].
      destruct r as [msg|[s|code result| |]].
      + absent Hin.
      + apply list_elem_of_singleton in Hin. injection Hin as -> ->. eauto.
      + destruct (_ && _); absent Hin.
      + absent Hin.
      + absent Hin.
    - intros [-> (s & -> & ->)]. right. by left. }
  split; [done|]. split.
  - intros (_ & s & _ & ->)%Hiff. apply strip_quotes_clean.
  - intros s Hs. unfold viewTrace. by rewrite strip_quotes_id.
Qed.

End TraceFacts.

(** ** The views *)

Module ViewFacts.
Import ChatMessageBubble.
Import View.
Import ViewDefs.

(** X29: the window shows the feedback buttons on at most one bubble, the
    one of the last message of the list, and only when that message is not
    the user's and the window is not loading. *)
Theorem buttons_on_last_message (apiBaseUrl : string) (st : ChatWindow.State)
    (i : nat) (p : Props) :
  bubble_props apiBaseUrl st !! i = Some p →
  ChatWindow.messages st !! (length (ChatWindow.messages st) - S i)
    = Some (message p) ∧
  (buttons_rendered p = true ↔
   i = 0 ∧ role (message p) ≠ user ∧ ChatWindow.isLoading st = false).
Proof.
  unfold bubble_props. rewrite list_lookup_imap.
  destruct (reverse (ChatWindow.messages st) !! i) as [m|] eqn:Hm; [|done].
  intros [= <-]. simpl.
  assert (i < length (ChatWindow.messages st)) as Hlt.
  { apply lookup_lt_Some in Hm. by rewrite length_reverse in Hm. }
  rewrite reverse_lookup in Hm by done. split; [done|].
  unfold buttons_rendered. simpl.
  rewrite !andb_true_iff, !negb_true_iff, bool_decide_eq_false,
    bool_decide_eq_true.
  split; [intros [[? ?] ?]|intros (? & ? & ?)]; repeat split; done.
Qed.

Lemma buttons_on_last_message_witness :
  ChatWindow.messages answered !! (length (ChatWindow.messages answered) - 1)
    = Some (message answer_props) ∧
  (buttons_rendered answer_props = true ↔
   0 = 0 ∧ role (message answer_props) ≠ user ∧
   ChatWindow.isLoading answered = false).
Proof.
  apply (buttons_on_last_message "b" answered 0 answer_props). reflexivity.
Defined.

(** X30: a bubble shows the header "Sources" and the source bubbles
    exactly when its message is not the user's and has at least one source;
    it then shows the filtered sources. *)
Theorem sources_header_iff (p : Props) (hl : list bool) :
  (sourcesHeader (render_bubble p hl) = true ↔
   role (message p) ≠ user ∧ ∃ s l, sources (message p) = Some (s :: l)) ∧
  sourceBubbles (render_bubble p hl) =
    if sourcesHeader (render_bubble p hl)
    then filtered (filterSources (default [] (sources (message p))))
    else [].
Proof.
  split; [|done]. unfold render_bubble. simpl.
  rewrite andb_true_iff, negb_true_iff, bool_decide_eq_false,
    bool_decide_eq_true.
  assert (∀ u, u ∈ url <$> filtered (filterSources
                                        (default [] (sources (message p))))
               ↔ u ∈ url <$> default [] (sources (message p))) as Hu.
  { intros u.
    destruct (Dedup.filterSources_order_inv
                (default [] (sources (message p)))) as [-> _].
    apply Dedup.firsts_urls. }
  split; intros [Hr Hs]; (split; [done|]).
  - destruct (sources (message p)) as [[|s l]|]; simpl in *; [|by eauto|];
      by apply Nat.lt_irrefl in Hs.
  - destruct Hs as (s & l & Hs). rewrite Hs in Hu |- *. simpl in *.
    assert (url s ∈ url <$> filtered (filterSources (s :: l))) as Hin.
    { apply Hu. by left. }
    destruct (filtered (filterSources (s :: l))); simpl; [|lia].
    by apply elem_of_nil in Hin.
Qed.

End ViewFacts.
